(** * git-duet: the authors file and the email resolution chain (pairs.go)

    A shallow embedding of [pairs.go]: the [Pairs] configuration, the loader
    [NewPairsFromFile], the email strategy chain [buildEmail] and the lookup
    [ByInitials], together with models of the Go standard-library functions
    they call ([strings.TrimSpace], [strings.ToLower], [strings.SplitN],
    [fmt.Sprintf] with the verbs used, [regexp.ReplaceAll] for the one
    pattern used).

    Go strings are byte sequences: they are modelled as [list ascii], an
    [ascii] being one byte.  Runes are integers ([Z]). *)

From Stdlib Require Import ZArith Ascii String List Bool Lia.
From stdpp Require Import base option list gmap strings.

Local Open Scope Z_scope.

(** ** Bytes and Go strings *)

Abbreviation gostring := (list ascii).

Definition str (s : string) : gostring := list_ascii_of_string s.

Definition byte_val (c : ascii) : Z := Z.of_N (N_of_ascii c).
Definition byte_of (z : Z) : ascii := ascii_of_N (Z.to_N (z mod 256)).

Definition bytes (l : list Z) : gostring := map byte_of l.

(** ** Package unicode/utf8 *)

Module utf8.

Definition RuneError : Z := 0xFFFD.
Definition RuneSelf : Z := 0x80.
Definition MaxRune : Z := 0x10FFFF.
Definition UTFMax : Z := 4.

(** The table [first] with its [acceptRanges]: what a leading byte
    announces. *)
Inductive lead :=
| as_ascii
| xx_invalid
| multi (sz : nat) (lo hi : Z).

Definition first (b : Z) : lead :=
  if b <? 0x80 then as_ascii
  else if b <? 0xC2 then xx_invalid
  else if b <? 0xE0 then multi 2 0x80 0xBF
  else if b =? 0xE0 then multi 3 0xA0 0xBF
  else if b <? 0xED then multi 3 0x80 0xBF
  else if b =? 0xED then multi 3 0x80 0x9F
  else if b <? 0xF0 then multi 3 0x80 0xBF
  else if b =? 0xF0 then multi 4 0x90 0xBF
  else if b <? 0xF4 then multi 4 0x80 0xBF
  else if b =? 0xF4 then multi 4 0x80 0x8F
  else xx_invalid.

Definition locb : Z := 0x80.
Definition hicb : Z := 0xBF.
Definition maskx : Z := 0x3F.
Definition mask2 : Z := 0x1F.
Definition mask3 : Z := 0x0F.
Definition mask4 : Z := 0x07.

(** [utf8.DecodeRuneInString]: the first rune of [s] and its width in
    bytes; [(RuneError, 0)] on the empty string and [(RuneError, 1)] on an
    invalid encoding. *)
Definition DecodeRuneInString (s : gostring) : Z * nat :=
  match s with
  | [] => (RuneError, 0%nat)
  | c0 :: t =>
      let s0 := byte_val c0 in
      match first s0 with
      | as_ascii => (s0, 1%nat)
      | xx_invalid => (RuneError, 1%nat)
      | multi sz lo hi =>
          if (length s <? sz)%nat then (RuneError, 1%nat) else
          match t with
          | [] => (RuneError, 1%nat)
          | c1 :: t1 =>
              let s1 := byte_val c1 in
              if (s1 <? lo) || (hi <? s1) then (RuneError, 1%nat)
              else if (sz <=? 2)%nat then
                (Z.lor (Z.shiftl (Z.land s0 mask2) 6) (Z.land s1 maskx), 2%nat)
              else
              match t1 with
              | [] => (RuneError, 1%nat)
              | c2 :: t2 =>
                  let s2 := byte_val c2 in
                  if (s2 <? locb) || (hicb <? s2) then (RuneError, 1%nat)
                  else if (sz <=? 3)%nat then
                    (Z.lor (Z.lor (Z.shiftl (Z.land s0 mask3) 12)
                                  (Z.shiftl (Z.land s1 maskx) 6))
                           (Z.land s2 maskx), 3%nat)
                  else
                  match t2 with
                  | [] => (RuneError, 1%nat)
                  | c3 :: _ =>
                      let s3 := byte_val c3 in
                      if (s3 <? locb) || (hicb <? s3) then (RuneError, 1%nat)
                      else
                        (Z.lor (Z.lor (Z.lor (Z.shiftl (Z.land s0 mask4) 18)
                                             (Z.shiftl (Z.land s1 maskx) 12))
                                      (Z.shiftl (Z.land s2 maskx) 6))
                               (Z.land s3 maskx), 4%nat)
                  end
              end
          end
      end
  end.

(** [utf8.RuneStart]: the byte is not a continuation byte. *)
Definition RuneStart (b : Z) : bool := negb (Z.land b 0xC0 =? 0x80).

(** The byte of [s] at index [i] (an integer index, as in Go). *)
Definition at_index (s : gostring) (i : Z) : Z :=
  byte_val (nth (Z.to_nat i) s zero).

(** The backward scan of [DecodeLastRuneInString]:
    [for start--; start >= lim; start-- { if RuneStart(s[start]) { break } }],
    entered with [start] already decremented.  At most [UTFMax - 1] bytes
    are looked at. *)
Fixpoint scan_back (k : nat) (s : gostring) (lim start : Z) : Z :=
  match k with
  | O => start
  | S k' =>
      if start <? lim then start
      else if RuneStart (at_index s start) then start
      else scan_back k' s lim (start - 1)
  end.

(** [utf8.DecodeLastRuneInString]: the last rune of [s] and its width. *)
Definition DecodeLastRuneInString (s : gostring) : Z * nat :=
  let end_ := Z.of_nat (length s) in
  if end_ =? 0 then (RuneError, 0%nat) else
  let start := end_ - 1 in
  let r := at_index s start in
  if r <? RuneSelf then (r, 1%nat) else
  let lim := Z.max 0 (end_ - UTFMax) in
  let start := scan_back (Z.to_nat UTFMax) s lim (start - 1) in
  let start := Z.max 0 start in
  let '(r, size) := DecodeRuneInString (drop (Z.to_nat start) s) in
  if negb (start + Z.of_nat size =? end_) then (RuneError, 1%nat)
  else (r, size).

Definition surrogateMin : Z := 0xD800.
Definition surrogateMax : Z := 0xDFFF.

Definition encode3 (r : Z) : gostring :=
  [ byte_of (Z.lor 0xE0 (Z.shiftr r 12));
    byte_of (Z.lor 0x80 (Z.land (Z.shiftr r 6) maskx));
    byte_of (Z.lor 0x80 (Z.land r maskx)) ].

(** [utf8.AppendRune(nil, r)] (also [Builder.WriteRune]): the UTF-8
    encoding of [r]; an invalid rune is written as [RuneError]. *)
Definition EncodeRune (r : Z) : gostring :=
  if r <? 0 then encode3 RuneError
  else if r <=? 0x7F then [byte_of r]
  else if r <=? 0x7FF then
    [ byte_of (Z.lor 0xC0 (Z.shiftr r 6));
      byte_of (Z.lor 0x80 (Z.land r maskx)) ]
  else if (MaxRune <? r) || ((surrogateMin <=? r) && (r <=? surrogateMax))
  then encode3 RuneError
  else if r <=? 0xFFFF then encode3 r
  else
    [ byte_of (Z.lor 0xF0 (Z.shiftr r 18));
      byte_of (Z.lor 0x80 (Z.land (Z.shiftr r 12) maskx));
      byte_of (Z.lor 0x80 (Z.land (Z.shiftr r 6) maskx));
      byte_of (Z.lor 0x80 (Z.land r maskx)) ].

End utf8.

(** ** Package unicode *)

Module unicode.

Definition MaxASCII : Z := 0x7F.
Definition MaxLatin1 : Z := 0xFF.

(** [unicode.IsSpace]: the Latin-1 spaces, then the [White_Space] range
    table. *)
Definition IsSpace (r : Z) : bool :=
  if (0 <=? r) && (r <=? MaxLatin1) then
    (r =? 0x09) || (r =? 0x0A) || (r =? 0x0B) || (r =? 0x0C) || (r =? 0x0D)
    || (r =? 0x20) || (r =? 0x85) || (r =? 0xA0)
  else
    (r =? 0x1680) || ((0x2000 <=? r) && (r <=? 0x200A))
    || (r =? 0x2028) || (r =? 0x2029) || (r =? 0x202F) || (r =? 0x205F)
    || (r =? 0x3000).

(** [unicode.ToLower]: ASCII is handled inline, every other rune goes
    through the case tables, [To(LowerCase, r)], which are taken as the
    parameter [to_lower]. *)
Definition ToLower (to_lower : Z -> Z) (r : Z) : Z :=
  if r <=? MaxASCII then
    if (0x41 <=? r) && (r <=? 0x5A) then r + (0x61 - 0x41) else r
  else to_lower r.

End unicode.

(** ** Package strings *)

Module strings.

(** The [for i, r := range s] loop of [indexFunc]: the byte index of the
    first rune [r] with [f r = truth], [None] for Go's [-1]. *)
Fixpoint indexFunc_loop (f : Z -> bool) (truth : bool) (fuel : nat)
    (s : gostring) (i : nat) : option nat :=
  match fuel with
  | O => None
  | S fuel' =>
      match s with
      | [] => None
      | _ :: _ =>
          let '(r, w) := utf8.DecodeRuneInString s in
          if Bool.eqb (f r) truth then Some i
          else indexFunc_loop f truth fuel' (drop w s) (i + w)%nat
      end
  end.

Definition indexFunc (s : gostring) (f : Z -> bool) (truth : bool) : option nat :=
  indexFunc_loop f truth (length s) s 0%nat.

(** The [for i := len(s); i > 0; ] loop of [lastIndexFunc]. *)
Fixpoint lastIndexFunc_loop (f : Z -> bool) (truth : bool) (fuel : nat)
    (s : gostring) (i : nat) : option nat :=
  match fuel with
  | O => None
  | S fuel' =>
      if (i =? 0)%nat then None
      else
        let '(r, size) := utf8.DecodeLastRuneInString (take i s) in
        let i' := (i - size)%nat in
        if Bool.eqb (f r) truth then Some i'
        else lastIndexFunc_loop f truth fuel' s i'
  end.

Definition lastIndexFunc (s : gostring) (f : Z -> bool) (truth : bool) : option nat :=
  lastIndexFunc_loop f truth (length s) s (length s).

Definition TrimLeftFunc (s : gostring) (f : Z -> bool) : gostring :=
  match indexFunc s f false with
  | None => []
  | Some i => drop i s
  end.

Definition TrimRightFunc (s : gostring) (f : Z -> bool) : gostring :=
  match lastIndexFunc s f false with
  | Some i =>
      if utf8.RuneSelf <=? utf8.at_index s (Z.of_nat i) then
        let '(_, wid) := utf8.DecodeRuneInString (drop i s) in
        take (i + wid) s
      else take (i + 1) s
  | None => take 0 s
  end.

Definition TrimFunc (s : gostring) (f : Z -> bool) : gostring :=
  TrimRightFunc (TrimLeftFunc s f) f.

(** [strings.TrimSpace]: all leading and trailing white space removed, as
    defined by Unicode. *)
Definition TrimSpace (s : gostring) : gostring := TrimFunc s unicode.IsSpace.

(** [strings.Map]: every rune of [s] replaced by its image; a negative
    image drops the rune. *)
Fixpoint Map_loop (mapping : Z -> Z) (fuel : nat) (s : gostring) : gostring :=
  match fuel with
  | O => []
  | S fuel' =>
      match s with
      | [] => []
      | _ :: _ =>
          let '(c, w) := utf8.DecodeRuneInString s in
          let r := mapping c in
          (if 0 <=? r then utf8.EncodeRune r else [])
            ++ Map_loop mapping fuel' (drop w s)
      end
  end.

Definition Map (mapping : Z -> Z) (s : gostring) : gostring :=
  Map_loop mapping (length s) s.

Definition isUpperByte (c : ascii) : bool :=
  (0x41 <=? byte_val c) && (byte_val c <=? 0x5A).

Definition lowerByte (c : ascii) : ascii :=
  if isUpperByte c then byte_of (byte_val c + (0x61 - 0x41)) else c.

(** [strings.ToLower]: the ASCII fast path, else [Map(unicode.ToLower, s)]. *)
Definition ToLower (to_lower : Z -> Z) (s : gostring) : gostring :=
  let isASCII := forallb (fun c => byte_val c <? utf8.RuneSelf) s in
  let hasUpper := existsb isUpperByte s in
  if isASCII then
    if negb hasUpper then s else map lowerByte s
  else Map (unicode.ToLower to_lower) s.

Fixpoint HasPrefix (s prefix : gostring) {struct prefix} : bool :=
  match prefix, s with
  | [], _ => true
  | p :: prefix', c :: s' => if Ascii.eqb p c then HasPrefix s' prefix' else false
  | _ :: _, [] => false
  end.

(** [strings.Index]: the index of the first instance of [sep] in [s],
    [None] for [-1]. *)
Fixpoint Index (s sep : gostring) : option nat :=
  if HasPrefix s sep then Some 0%nat
  else match s with
       | [] => None
       | _ :: s' => option_map S (Index s' sep)
       end.

(** The loop of [genSplit], [n] being the number of separators still to
    be cut at. *)
Fixpoint genSplit_loop (n : nat) (s sep : gostring) : list gostring :=
  match n with
  | O => [s]
  | S n' =>
      match Index s sep with
      | None => [s]
      | Some m => take m s :: genSplit_loop n' (drop (m + length sep) s) sep
      end
  end.

(** [strings.SplitN] for a non-empty separator and [n >= 0] (the two call
    sites pass a one-byte separator and [n = 2]): [n = 0] gives nil, and
    [n] is capped at [len(s) + 1]. *)
Definition SplitN (s sep : gostring) (n : nat) : list gostring :=
  match n with
  | O => []
  | S _ => genSplit_loop (Nat.min n (length s + 1) - 1) s sep
  end.

End strings.


(** ** Errors and panics *)

(** A Go [error] value, by the package that made it, with its message
    (what [Error()] returns). *)
Inductive error :=
| fmt_error (msg : gostring)
| exec_error (msg : gostring)
| template_error (msg : gostring)
| os_error (msg : gostring)
| yaml_error (msg : gostring).

Definition Error (e : error) : gostring :=
  match e with
  | fmt_error m | exec_error m | template_error m | os_error m
  | yaml_error m => m
  end.

(** What evaluating a Go expression or calling a Go function gives: its
    value, or a run-time panic. *)
Inductive outcome (A : Type) :=
| returns (a : A)
| panics.
Arguments returns {A} a.
Arguments panics {A}.

(** [l[i]] on a slice, and [s[i]] on a string: out of range panics. *)
Definition index {A : Type} (l : list A) (i : nat) : outcome A :=
  match l !! i with
  | Some x => returns x
  | None => panics
  end.

(** [p.x] through a pointer [p], [None] being the nil pointer: a nil pointer
    dereference panics. *)
Definition deref {A : Type} (p : option A) : outcome A :=
  match p with
  | Some x => returns x
  | None => panics
  end.

(** ** Package fmt *)

Module fmt.

Inductive arg :=
| string_arg (s : gostring)
| byte_arg (c : ascii)
| error_arg (e : error).

(** [%c] of an integer: the character of that code point, UTF-8
    encoded. *)
Definition fmtC (c : Z) : gostring :=
  utf8.EncodeRune (if utf8.MaxRune <? c then utf8.RuneError else c).

Definition bad_verb : gostring := str "%!(BADVERB)".
Definition missing : gostring := str "%!(MISSING)".

(** One verb applied to one operand, for the verbs and operand types of
    this program: [%s] of a string, [%c] of a byte, [%v] of an error. *)
Definition print_verb (verb : ascii) (a : arg) : gostring :=
  match a with
  | string_arg s =>
      if Ascii.eqb verb "s"%char || Ascii.eqb verb "v"%char
      then s else bad_verb
  | byte_arg c =>
      if Ascii.eqb verb "c"%char then fmtC (byte_val c) else bad_verb
  | error_arg e =>
      if Ascii.eqb verb "v"%char || Ascii.eqb verb "s"%char
      then Error e else bad_verb
  end.

(** [fmt.Sprintf] for formats made of literal text, [%s], [%c], [%v] and
    [%+v]. *)
Fixpoint Sprintf (format : gostring) (args : list arg) : gostring :=
  match format with
  | [] => []
  | c :: rest =>
      if Ascii.eqb c "%"%char then
        match rest with
        | v :: rest' =>
            if Ascii.eqb v "+"%char then
              match rest' with
              | v' :: rest'' =>
                  match args with
                  | a :: args' => print_verb v' a ++ Sprintf rest'' args'
                  | [] => missing ++ Sprintf rest'' []
                  end
              | [] => bad_verb
              end
            else
              match args with
              | a :: args' => print_verb v a ++ Sprintf rest' args'
              | [] => missing ++ Sprintf rest' []
              end
        | [] => bad_verb
        end
      else c :: Sprintf rest args
  end.

Definition Errorf (format : gostring) (args : list arg) : error :=
  fmt_error (Sprintf format args).

End fmt.

(** ** Package regexp, for the pattern [(?m)^pairs:] *)

Definition is_newline (c : ascii) : bool := Ascii.eqb c "010"%char.

(** [pairsKey.ReplaceAll(src, repl)] for
    [pairsKey = regexp.MustCompile(`(?m)^pairs:`)] and a replacement
    without [$]: [bol] says whether the position is at the beginning of the
    text or just after a newline, the only places where [^] matches. *)
Fixpoint pairsKey_ReplaceAll_from (bol : bool) (src repl : gostring) : gostring :=
  match src with
  | [] => []
  | c :: rest =>
      if bol && strings.HasPrefix src (str "pairs:") then
        match src with
        | _ :: _ :: _ :: _ :: _ :: _ :: rest' =>
            repl ++ pairsKey_ReplaceAll_from false rest' repl
        | _ => []
        end
      else c :: pairsKey_ReplaceAll_from (is_newline c) rest repl
  end.

Definition pairsKey_ReplaceAll (src repl : gostring) : gostring :=
  pairsKey_ReplaceAll_from true src repl.

(** ** The data of pairs.go *)

(** [Pair] represents a single pair. *)
Record Pair := {
  Name : gostring;
  Email : gostring;
  Initials : gostring;
  Username : gostring
}.

Record emailConfig := {
  Prefix : gostring;
  Domain : gostring
}.

(** The struct [pairsFile]; its fields [Pairs] and [Email] carry the
    struct's name here, since [Pairs] and [Email] are taken. *)
Record pairsFile := {
  pairsFile_Pairs : gmap gostring gostring;
  pairsFile_Email : emailConfig;
  EmailAddresses : gmap gostring gostring;
  EmailTemplate : gostring
}.

(** [Pairs] wraps the git authors file with the external lookup
    command.  Its field [file] is a pointer, [*pairsFile]: [None] is the nil
    pointer. *)
Record Pairs := {
  file : option pairsFile;
  emailLookup : gostring
}.

(** [pairsFile{}], the struct that [af := &pairsFile{}] points to. *)
Definition empty_pairsFile : pairsFile :=
  {| pairsFile_Pairs := ∅;
     pairsFile_Email := {| Prefix := []; Domain := [] |};
     EmailAddresses := ∅;
     EmailTemplate := [] |}.

(** ** What the program calls outside itself

    The operating system (files, child processes), the YAML and
    text/template libraries and the Unicode case tables.  A child process
    may read and change the state of the world; the libraries are
    functions.  Each returns the message of its error, if any; the
    embedding wraps it into the [error] of its package. *)
Class Platform := {
  World : Type;
  (** [unicode.To(unicode.LowerCase, r)] for [r > MaxASCII] *)
  unicode_To_LowerCase : Z -> Z;
  (** [cmd := exec.Command(name, arg...); cmd.Stdout = &out; cmd.Run()]:
      what was written to [out], and the error of [Run] *)
  exec_Run : gostring -> list gostring -> World ->
             (gostring * option gostring) * World;
  Template : Type;
  (** [template.New("email").Funcs(templateFuncs).Parse(text)] *)
  template_Parse : gostring -> Template + gostring;
  (** [t.Execute(&out, data)]: what was written to [out], or the error *)
  template_Execute : Template -> Pair -> gostring + gostring;
  File : Type;
  os_Open : gostring -> World -> File + gostring;
  ioutil_ReadAll : File -> World -> gostring + gostring;
  (** [yaml.Unmarshal(contents, &af)], [af] being itself a pointer to the
      struct: the pointer it leaves in [af], which is nil after a null
      document, or the error *)
  yaml_Unmarshal : gostring -> option pairsFile ->
                   option pairsFile + gostring
}.

Definition ToLower {P : Platform} (s : gostring) : gostring :=
  strings.ToLower unicode_To_LowerCase s.

(** ** NewPairsFromFile *)

(** [NewPairsFromFile] parses the given yml authors file; the result is
    Go's pair [(a, err)]. *)
Definition NewPairsFromFile {P : Platform} (filename emailLookup : gostring)
    (w : World) : option Pairs * option error :=
  let af := Some empty_pairsFile in
  match os_Open filename w with
  | inr err => (None, Some (os_error err))
  | inl file =>
      match ioutil_ReadAll file w with
      | inr err => (None, Some (os_error err))
      | inl contents =>
          let contents := pairsKey_ReplaceAll contents (str "authors:") in
          match yaml_Unmarshal contents af with
          | inr err =>
              (None,
               Some (fmt.Errorf (str "could not parse %s: %+v")
                       [fmt.string_arg filename; fmt.error_arg (yaml_error err)]))
          | inl af =>
              (Some {| file := af; emailLookup := emailLookup |}, None)
          end
      end
  end.

(** ** buildEmail and ByInitials *)

#[global] Instance outcome_bind : MBind outcome := fun A B k o =>
  match o with
  | returns a => k a
  | panics => panics
  end.

Definition non_empty (s : gostring) : bool :=
  match s with
  | [] => false
  | _ :: _ => true
  end.

(** Lines 99 to 129 of [buildEmail]: the [if ... else if ...] chain over
    the override map, the template, the username and the name, and the
    final [return email, nil].  The result is Go's pair [(email, err)].
    The chain starts by reading [a.file.EmailAddresses], through the
    pointer [a.file]. *)
Definition buildEmail_chain {P : Platform} (a : Pairs)
    (initials name username : gostring) : outcome (gostring * option error) :=
  f ← deref (file a);
  match EmailAddresses f !! initials with
  | Some e => returns (e, None)
  | None =>
      if non_empty (EmailTemplate f) then
        match template_Parse (EmailTemplate f) with
        | inr err => returns ([], Some (template_error err))
        | inl t =>
            match template_Execute t
                    {| Initials := initials; Name := name;
                       Username := username; Email := [] |} with
            | inr err => returns ([], Some (template_error err))
            | inl out => returns (out, None)
            end
        end
      else if non_empty username then
        returns (fmt.Sprintf (str "%s@%s")
                   [fmt.string_arg (strings.TrimSpace username);
                    fmt.string_arg (Domain (pairsFile_Email f))], None)
      else
        let names := strings.SplitN name (str " ") 2 in
        if (length names =? 2)%nat then
          n0 ← index names 0;
          c ← index (ToLower (strings.TrimSpace n0)) 0;
          n1 ← index names 1;
          returns (fmt.Sprintf (str "%c.%s@%s")
                     [fmt.byte_arg c;
                      fmt.string_arg (ToLower (strings.TrimSpace n1));
                      fmt.string_arg (Domain (pairsFile_Email f))], None)
        else
          n0 ← index names 0;
          returns (fmt.Sprintf (str "%s@%s")
                     [fmt.string_arg (ToLower (strings.TrimSpace n0));
                      fmt.string_arg (Domain (pairsFile_Email f))], None)
  end.

(** [buildEmail]: the external lookup first (lines 83 to 97), which
    returns early on an error and on a non-empty answer, then the
    chain. *)
Definition buildEmail {P : Platform} (a : Pairs)
    (initials name username : gostring) (w : World)
    : outcome (gostring * option error) * World :=
  if non_empty (emailLookup a) then
    let '((out, err), w') :=
      exec_Run (emailLookup a) [initials; name; username] w in
    match err with
    | Some e => (returns ([], Some (exec_error e)), w')
    | None =>
        let email := strings.TrimSpace out in
        if non_empty email then (returns (email, None), w')
        else (buildEmail_chain a initials name username, w')
    end
  else (buildEmail_chain a initials name username, w).

(** [ByInitials] returns the pair with the given initials; the result is
    Go's pair [(pair, err)], a nil pointer being [None].  Its first step
    reads [a.file.Pairs], through the pointer [a.file]. *)
Definition ByInitials {P : Platform} (a : Pairs) (initials : gostring) (w : World)
    : outcome (option Pair * option error) * World :=
  match deref (file a) with
  | panics => (panics, w)
  | returns f =>
  match pairsFile_Pairs f !! initials with
  | None =>
      (returns (None, Some (fmt.Errorf (str "unknown initials %s")
                              [fmt.string_arg initials])), w)
  | Some pairString =>
      let pairParts := strings.SplitN pairString (str ";") 2 in
      match index pairParts 0 with
      | panics => (panics, w)
      | returns p0 =>
          let name := strings.TrimSpace p0 in
          match (if (length pairParts =? 2)%nat
                 then p1 ← index pairParts 1; returns (strings.TrimSpace p1)
                 else returns []) with
          | panics => (panics, w)
          | returns username =>
              match buildEmail a initials name username w with
              | (panics, w') => (panics, w')
              | (returns (email, Some err), w') => (returns (None, Some err), w')
              | (returns (email, None), w') =>
                  (returns (Some {| Name := name; Email := email;
                                    Username := username;
                                    Initials := initials |}, None), w')
              end
          end
      end
  end
  end.

(** ** The error taxonomy of the specification *)

Definition UnknownInitials (initials : gostring) (e : error) : Prop :=
  e = fmt_error (str "unknown initials " ++ initials).

Definition ResolutionFailure (e : error) : Prop :=
  exists msg, e = exec_error msg \/ e = template_error msg.

(** ** A concrete platform, for running the program on examples

    The world is a number: in world 0 the file [.git-authors] has the
    legacy key, in the others the key [authors].  The one command there is
    answers with a fixed address and moves the world on.  The template
    language is literal text (a text with an opening brace pair does not
    parse), the case table covers Latin-1, and the YAML reader knows one
    document with authors and the null document [null], held by the file
    [null.yml], after which it leaves the nil pointer. *)

Definition latin1_lower (r : Z) : Z :=
  if ((0xC0 <=? r) && (r <=? 0xD6)) || ((0xD8 <=? r) && (r <=? 0xDE))
  then r + 32 else r.

Definition mk_file (authors : list (string * string)) (domain : string)
    (addresses : list (string * string)) (template : string) : pairsFile :=
  {| pairsFile_Pairs := list_to_map (map (fun p => (str p.1, str p.2)) authors);
     pairsFile_Email := {| Prefix := []; Domain := str domain |};
     EmailAddresses := list_to_map (map (fun p => (str p.1, str p.2)) addresses);
     EmailTemplate := str template |}.

Definition demo_authors : list (string * string) :=
  [("AB", "Alice Brown"); ("CD", "Cher"); ("EF", "Eve Foo; efoo");
   ("GH", "Grace Hopper")]%string.

Definition demo_file : pairsFile :=
  mk_file demo_authors "example.com" [("GH", "grace@navy.mil")]%string EmptyString.

Definition demo_yaml_body : gostring :=
  str "
  AB: Alice Brown
email:
  domain: example.com
".

Definition demo_yaml : gostring := str "authors:" ++ demo_yaml_body.

Definition demo_yaml_legacy : gostring := str "pairs:" ++ demo_yaml_body.

Definition demo_platform : Platform := {|
  World := nat;
  unicode_To_LowerCase := latin1_lower;
  exec_Run := fun name args w =>
    if bool_decide (name = str "echo-lookup")
    then ((str " looked.up@example.org
", None), S w)
    else (([], Some (str "exec: not found")), w);
  Template := gostring;
  template_Parse := fun text =>
    match strings.Index text (str "{{") with
    | Some _ => inr (str "template: email:1: unexpected action")
    | None => inl text
    end;
  template_Execute := fun t _ => inl t;
  File := gostring;
  os_Open := fun filename w =>
    if bool_decide (filename = str ".git-authors")
    then inl (if (w =? 0)%nat then demo_yaml_legacy else demo_yaml)
    else if bool_decide (filename = str "null.yml")
    then inl (str "null")
    else inr (str "open: no such file or directory");
  ioutil_ReadAll := fun f _ => inl f;
  yaml_Unmarshal := fun contents af =>
    if bool_decide (contents = demo_yaml)
    then inl (Some (mk_file [("AB", "Alice Brown")]%string "example.com" []
                      EmptyString))
    else if bool_decide (contents = str "null")
    then inl None
    else inr (str "yaml: unknown document")
|}.

Definition demo_pairs : Pairs :=
  {| file := Some demo_file; emailLookup := [] |}.

(** [demo_pairs] with the lookup command configured. *)
Definition demo_pairs_lookup : Pairs :=
  {| file := Some demo_file; emailLookup := str "echo-lookup" |}.

(** An authors file with a template that does not parse. *)
Definition bad_template_pairs : Pairs :=
  {| file := Some (mk_file demo_authors "example.com" [] "{{.Name");
     emailLookup := [] |}.

(** An authors file whose override for [AB] is the empty string. *)
Definition empty_override_pairs : Pairs :=
  {| file := Some (mk_file [("AB", "Alice Brown")]%string "example.com"
                     [("AB", EmptyString)] EmptyString);
     emailLookup := [] |}.

(** The same without the override. *)
Definition no_override_pairs : Pairs :=
  {| file := Some (mk_file [("AB", "Alice Brown")]%string "example.com" []
                     EmptyString);
     emailLookup := [] |}.

(** The name [Emile Zola] with its capital E acute (U+00C9, the bytes C3 89
    in UTF-8), and the authors file with this one author. *)
Definition Emile_Zola : gostring := bytes [0xC3; 0x89] ++ str "mile Zola".

Definition emile_pairs : Pairs :=
  {| file := Some {| pairsFile_Pairs := {[ str "EZ" := Emile_Zola ]};
                     pairsFile_Email :=
                       {| Prefix := []; Domain := str "example.com" |};
                     EmailAddresses := ∅;
                     EmailTemplate := [] |};
     emailLookup := [] |}.

(** What [NewPairsFromFile] returns after a null document: a configuration
    whose [file] is the nil pointer. *)
Definition nil_file_pairs (lookup : gostring) : Pairs :=
  {| file := None; emailLookup := lookup |}.

(** ** Lines, for the legacy key *)

(** Whether the position after [pre] is at the beginning of a line, [bol]
    saying whether the position before [pre] is. *)
Definition at_bol (bol : bool) (pre : gostring) : bool :=
  match last pre with
  | None => bol
  | Some c => is_newline c
  end.

(** [pre] ends where a line begins: it is empty or ends in a newline. *)
Definition line_start (pre : gostring) : Prop := at_bol true pre = true.

(** Some line of the document [d] begins with the key [pairs:]. *)
Definition has_pairs_key (d : gostring) : Prop :=
  exists pre post, line_start pre /\ d = pre ++ str "pairs:" ++ post.

(** ** Vocabulary for the statements *)

(** The values of the local variables [name] and [username] of
    [ByInitials], for the entry [pairString] of the authors map. *)
Definition name_of (pairString : gostring) : gostring :=
  strings.TrimSpace (nth 0 (strings.SplitN pairString (str ";") 2) []).

Definition username_of (pairString : gostring) : gostring :=
  let pairParts := strings.SplitN pairString (str ";") 2 in
  if (length pairParts =? 2)%nat then strings.TrimSpace (nth 1 pairParts [])
  else [].

(** The external lookup gives no answer, and leaves the world [w'] behind:
    none is configured, or the command succeeds and writes nothing but
    white space. *)
Definition no_lookup_answer {P : Platform} (a : Pairs)
    (initials name username : gostring) (w w' : World) : Prop :=
  (emailLookup a = [] /\ w' = w) \/
  (emailLookup a <> [] /\
   exists out, exec_Run (emailLookup a) [initials; name; username] w
               = ((out, None), w') /\
               strings.TrimSpace out = []).

(** A string "starts with a non-space rune". *)
Definition starts_non_space (s : gostring) : Prop :=
  s <> [] /\ unicode.IsSpace (utf8.DecodeRuneInString s).1 = false.

(** What [ByInitials] returns when [buildEmail] has returned. *)
Definition pair_of_email (initials name username : gostring)
    (r : outcome (gostring * option error))
    : outcome (option Pair * option error) :=
  match r with
  | panics => panics
  | returns (_, Some err) => returns (None, Some err)
  | returns (email, None) =>
      returns (Some {| Name := name; Email := email; Username := username;
                       Initials := initials |}, None)
  end.

(** The configuration [a] with another prefix, and with another domain, in
    its [email] section. *)
Definition with_Prefix (prefix : gostring) (a : Pairs) : Pairs :=
  {| file := (fun f => {| pairsFile_Pairs := pairsFile_Pairs f;
                          pairsFile_Email :=
                            {| Prefix := prefix;
                               Domain := Domain (pairsFile_Email f) |};
                          EmailAddresses := EmailAddresses f;
                          EmailTemplate := EmailTemplate f |}) <$> file a;
     emailLookup := emailLookup a |}.

Definition with_Domain (domain : gostring) (a : Pairs) : Pairs :=
  {| file := (fun f => {| pairsFile_Pairs := pairsFile_Pairs f;
                          pairsFile_Email :=
                            {| Prefix := Prefix (pairsFile_Email f);
                               Domain := domain |};
                          EmailAddresses := EmailAddresses f;
                          EmailTemplate := EmailTemplate f |}) <$> file a;
     emailLookup := emailLookup a |}.

(** "The prefix is used by the lookup": some lookup gives another result
    when only the prefix of the configuration is changed. *)
Definition Prefix_is_used : Prop :=
  exists (P : Platform) (a : Pairs) (initials prefix : gostring) (w : World),
    ByInitials (with_Prefix prefix a) initials w <> ByInitials a initials w.

(** The configuration [a] with the entry [k : v] put into its authors map,
    and into its override map. *)
Definition with_author (k v : gostring) (a : Pairs) : Pairs :=
  {| file := (fun f => {| pairsFile_Pairs := <[k := v]> (pairsFile_Pairs f);
                          pairsFile_Email := pairsFile_Email f;
                          EmailAddresses := EmailAddresses f;
                          EmailTemplate := EmailTemplate f |}) <$> file a;
     emailLookup := emailLookup a |}.

Definition with_address (k v : gostring) (a : Pairs) : Pairs :=
  {| file := (fun f => {| pairsFile_Pairs := pairsFile_Pairs f;
                          pairsFile_Email := pairsFile_Email f;
                          EmailAddresses := <[k := v]> (EmailAddresses f);
                          EmailTemplate := EmailTemplate f |}) <$> file a;
     emailLookup := emailLookup a |}.

(** A text without a newline. *)
Definition no_newline (k : gostring) : Prop :=
  forallb (fun c => negb (is_newline c)) k = true.

(** An authors file with a template of literal text, and one with an entry
    of spaces. *)
Definition literal_template_pairs : Pairs :=
  {| file := Some (mk_file demo_authors "example.com" [] "pairs@example.com");
     emailLookup := [] |}.

Definition blank_pairs : Pairs :=
  {| file := Some (mk_file [("XX", "  ")]%string "example.com" [] EmptyString);
     emailLookup := [] |}.

(** * Facts about the library models *)

Lemma byte_val_range (c : ascii) : 0 <= byte_val c < 256.
Proof.
  unfold byte_val. pose proof (N_ascii_bounded c). lia.
Qed.

Lemma RuneError_not_space : unicode.IsSpace utf8.RuneError = false.
Proof. reflexivity. Qed.

(** Case analysis along the branches of [DecodeRuneInString]. *)
Ltac decode_step :=
  match goal with
  | H : context [match utf8.first ?b with _ => _ end] |- _ =>
      destruct (utf8.first b) eqn:?
  | |- context [match utf8.first ?b with _ => _ end] =>
      destruct (utf8.first b) eqn:?
  | H : context [if ?c then _ else _] |- _ => destruct c eqn:?
  | |- context [if ?c then _ else _] => destruct c eqn:?
  | H : context [match ?t with [] => _ | _ :: _ => _ end] |- _ => destruct t
  | |- context [match ?t with [] => _ | _ :: _ => _ end] => destruct t
  end.

Lemma DecodeRune_nonneg (s : gostring) : 0 <= (utf8.DecodeRuneInString s).1.
Proof.
  unfold utf8.DecodeRuneInString.
  repeat (decode_step; simpl);
    try (unfold utf8.RuneError; lia);
    try apply byte_val_range;
    repeat (apply Z.lor_nonneg; split);
    try (apply Z.shiftl_nonneg);
    apply Z.land_nonneg; right; unfold utf8.maskx, utf8.mask2, utf8.mask3, utf8.mask4; lia.
Qed.

Lemma DecodeRune_width (s : gostring) :
  s <> [] ->
  (1 <= (utf8.DecodeRuneInString s).2 <= length s)%nat.
Proof.
  intros Hs. unfold utf8.DecodeRuneInString.
  repeat (decode_step; simpl in * ); try congruence; lia.
Qed.

(** A rune that is a space is validly encoded, so what follows its bytes
    does not change how it decodes. *)
Lemma DecodeRune_space_app (p q : gostring) :
  unicode.IsSpace (utf8.DecodeRuneInString p).1 = true ->
  utf8.DecodeRuneInString (p ++ q) = utf8.DecodeRuneInString p.
Proof.
  unfold utf8.DecodeRuneInString.
  destruct p as [|c0 t]; simpl; [discriminate|].
  destruct (utf8.first (byte_val c0)) as [| |sz lo hi]; simpl; try discriminate; auto.
  rewrite length_app.
  destruct (S (length t) <? sz)%nat eqn:Hlen; simpl; [discriminate|].
  apply Nat.ltb_ge in Hlen.
  replace (S (length t + length q) <? sz)%nat with false
    by (symmetry; apply Nat.ltb_ge; lia).
  destruct t as [|c1 t1]; simpl; [discriminate|].
  destruct ((byte_val c1 <? lo) || (hi <? byte_val c1)); simpl; [discriminate|].
  destruct (sz <=? 2)%nat; auto.
  destruct t1 as [|c2 t2]; simpl; [discriminate|].
  destruct ((byte_val c2 <? utf8.locb) || (utf8.hicb <? byte_val c2)); simpl;
    [discriminate|].
  destruct (sz <=? 3)%nat; auto.
  destruct t2 as [|c3 t3]; simpl; [discriminate|]. auto.
Qed.

(** The first rune of a non-empty prefix is a space only if the first rune
    of the whole string is. *)
Lemma DecodeRune_prefix_not_space (p q : gostring) :
  unicode.IsSpace (utf8.DecodeRuneInString (p ++ q)).1 = false ->
  unicode.IsSpace (utf8.DecodeRuneInString p).1 = false.
Proof.
  intros H. destruct (unicode.IsSpace (utf8.DecodeRuneInString p).1) eqn:Hp; auto.
  rewrite (DecodeRune_space_app p q Hp) in H. congruence.
Qed.

Lemma drop_last_byte (s : gostring) :
  s <> [] ->
  drop (length s - 1) s = [nth (length s - 1) s zero].
Proof.
  intros Hs.
  assert (Hlt : (length s - 1 < length s)%nat)
    by (destruct s; simpl in *; [congruence | lia]).
  destruct (lookup_lt_is_Some_2 s _ Hlt) as [x Hx].
  rewrite (drop_S _ _ _ Hx), (nth_lookup_Some _ _ _ _ Hx).
  rewrite drop_ge; [reflexivity | lia].
Qed.

(** The last rune, when it is a space, is the first rune of the suffix of
    its width. *)
Lemma DecodeLastRune_space (s : gostring) (r : Z) (size : nat) :
  utf8.DecodeLastRuneInString s = (r, size) ->
  unicode.IsSpace r = true ->
  (1 <= size <= length s)%nat /\
  utf8.DecodeRuneInString (drop (length s - size) s) = (r, size).
Proof.
  unfold utf8.DecodeLastRuneInString. intros H Hr.
  destruct (Z.of_nat (length s) =? 0) eqn:Hlen.
  { inversion H; subst. discriminate. }
  apply Z.eqb_neq in Hlen.
  assert (Hs : s <> []) by (intros ->; simpl in Hlen; lia).
  destruct (utf8.at_index s (Z.of_nat (length s) - 1) <? utf8.RuneSelf) eqn:Hascii.
  - inversion H; subst r size; clear H. split; [lia|].
    rewrite drop_last_byte by assumption.
    unfold utf8.at_index in *.
    replace (Z.to_nat (Z.of_nat (length s) - 1)) with (length s - 1)%nat in * by lia.
    unfold utf8.DecodeRuneInString, utf8.first.
    unfold utf8.RuneSelf in Hascii. rewrite Hascii. reflexivity.
  - set (start := Z.max 0 _) in H.
    assert (Hstart : 0 <= start) by (subst start; lia).
    destruct (utf8.DecodeRuneInString (drop (Z.to_nat start) s)) as [r' size'] eqn:Hd.
    destruct (start + Z.of_nat size' =? Z.of_nat (length s)) eqn:Hend; simpl in H.
    + inversion H; subst r' size'; clear H. apply Z.eqb_eq in Hend.
      replace (length s - size)%nat with (Z.to_nat start) by lia.
      split; [|assumption].
      assert (Hne : drop (Z.to_nat start) s <> []).
      { intros He. rewrite He in Hd. inversion Hd; subst. discriminate. }
      pose proof (DecodeRune_width _ Hne) as Hw. rewrite Hd in Hw. simpl in Hw. lia.
    + inversion H; subst. discriminate.
Qed.

(** ** Trimming *)

Lemma starts_non_space_prefix (p q : gostring) :
  p <> [] -> starts_non_space (p ++ q) -> starts_non_space p.
Proof.
  intros Hp [_ H]. split; [assumption|].
  eapply DecodeRune_prefix_not_space; eassumption.
Qed.

Lemma starts_non_space_take (n : nat) (s : gostring) :
  take n s <> [] -> starts_non_space s -> starts_non_space (take n s).
Proof.
  intros Hn Hs. apply (starts_non_space_prefix _ (drop n s)); [assumption|].
  rewrite take_drop. assumption.
Qed.

Lemma indexFunc_loop_found (f : Z -> bool) (fuel : nat) :
  forall (s : gostring) (i j : nat),
    strings.indexFunc_loop f false fuel s i = Some j ->
    exists k, j = (i + k)%nat /\ (k < length s)%nat /\
              f (utf8.DecodeRuneInString (drop k s)).1 = false.
Proof.
  induction fuel as [|fuel IH]; intros s i j H; simpl in H; [discriminate|].
  destruct s as [|c t]; [discriminate|].
  destruct (utf8.DecodeRuneInString (c :: t)) as [r w] eqn:Hd.
  destruct (f r) eqn:Hf; simpl in H.
  - apply IH in H as (k & -> & Hk & Hfk).
    rewrite length_drop in Hk. rewrite drop_drop in Hfk.
    exists (w + k)%nat. split; [lia|]. split; [lia|assumption].
  - inversion H; subst j. exists 0%nat. split; [lia|].
    split; [simpl; lia|]. rewrite drop_0, Hd. assumption.
Qed.

Lemma indexFunc_starts_non_space (s : gostring) :
  starts_non_space s -> strings.indexFunc s unicode.IsSpace false = Some 0%nat.
Proof.
  intros [Hs Hf]. unfold strings.indexFunc.
  destruct s as [|c t]; [congruence|].
  cbn [length strings.indexFunc_loop].
  destruct (utf8.DecodeRuneInString (c :: t)) as [r w]. simpl in Hf.
  rewrite Hf. reflexivity.
Qed.

Lemma TrimLeftFunc_starts (s : gostring) :
  strings.TrimLeftFunc s unicode.IsSpace = [] \/
  starts_non_space (strings.TrimLeftFunc s unicode.IsSpace).
Proof.
  unfold strings.TrimLeftFunc, strings.indexFunc.
  destruct (strings.indexFunc_loop _ _ _ _ _) as [j|] eqn:H; [|left; reflexivity].
  apply indexFunc_loop_found in H as (k & -> & Hk & Hf).
  right. split; [|assumption].
  intros He. apply (f_equal length) in He. rewrite length_drop in He.
  simpl in He. lia.
Qed.

(** When the backward loop finds no rune that is not a space, the part of
    the string it has walked starts with a space. *)
Lemma lastIndexFunc_loop_none (fuel : nat) :
  forall (s : gostring) (i : nat),
    (0 < i <= length s)%nat -> (i <= fuel)%nat ->
    strings.lastIndexFunc_loop unicode.IsSpace false fuel s i = None ->
    unicode.IsSpace (utf8.DecodeRuneInString (take i s)).1 = true.
Proof.
  induction fuel as [|fuel IH]; intros s i Hi Hfuel H; [lia|].
  simpl in H.
  destruct (Nat.eqb_spec i 0) as [->|_]; [lia|].
  destruct (utf8.DecodeLastRuneInString (take i s)) as [r size] eqn:Hd.
  destruct (unicode.IsSpace r) eqn:Hr; simpl in H; [|discriminate].
  destruct (DecodeLastRune_space _ _ _ Hd Hr) as [Hsize Hdec].
  rewrite length_take in Hsize, Hdec.
  replace (Nat.min i (length s)) with i in * by lia.
  destruct (Nat.eq_dec (i - size)%nat 0%nat) as [Hz|Hnz].
  - rewrite Hz, drop_0 in Hdec. rewrite Hdec. assumption.
  - assert (Hrec := IH s (i - size)%nat ltac:(lia) ltac:(lia) H).
    rewrite <- (take_drop (i - size)%nat (take i s)).
    rewrite take_take. replace (Nat.min (i - size)%nat i) with (i - size)%nat by lia.
    rewrite (DecodeRune_space_app _ _ Hrec). assumption.
Qed.

Lemma TrimRightFunc_non_empty (s : gostring) :
  starts_non_space s -> strings.TrimRightFunc s unicode.IsSpace <> [].
Proof.
  intros [Hs Hf]. unfold strings.TrimRightFunc, strings.lastIndexFunc.
  destruct (strings.lastIndexFunc_loop _ _ _ _ _) as [i|] eqn:H.
  - assert (Hpos : forall n, (1 <= n)%nat -> take n s <> []).
    { intros n Hn He. apply (f_equal length) in He.
      rewrite length_take in He. destruct s; simpl in *; [congruence|lia]. }
    destruct (utf8.RuneSelf <=? _).
    + destruct (utf8.DecodeRuneInString (drop i s)) as [r wid] eqn:Hd.
      destruct i as [|i]; [|apply Hpos; lia].
      rewrite drop_0 in Hd. pose proof (DecodeRune_width s Hs) as Hw.
      rewrite Hd in Hw. simpl in Hw. apply Hpos. lia.
    + apply Hpos. lia.
  - apply lastIndexFunc_loop_none in H.
    + rewrite firstn_all in H. congruence.
    + destruct s; simpl in *; [congruence|lia].
    + lia.
Qed.

Lemma TrimRightFunc_is_take (s : gostring) :
  exists n, strings.TrimRightFunc s unicode.IsSpace = take n s.
Proof.
  unfold strings.TrimRightFunc.
  destruct (strings.lastIndexFunc _ _ _) as [i|]; [|eauto].
  destruct (utf8.RuneSelf <=? _); [|eauto].
  destruct (utf8.DecodeRuneInString _). eauto.
Qed.

(** What [TrimSpace] returns is empty or starts with a rune that is not a
    space. *)
Lemma TrimSpace_starts (s : gostring) :
  strings.TrimSpace s = [] \/ starts_non_space (strings.TrimSpace s).
Proof.
  unfold strings.TrimSpace, strings.TrimFunc.
  destruct (TrimRightFunc_is_take (strings.TrimLeftFunc s unicode.IsSpace)) as [n Hn].
  rewrite Hn.
  destruct (take n _) as [|c t] eqn:Ht; [left; reflexivity|right].
  rewrite <- Ht.
  destruct (TrimLeftFunc_starts s) as [He|Hst].
  - rewrite He, take_nil in Ht. discriminate.
  - apply starts_non_space_take; [rewrite Ht; discriminate|assumption].
Qed.

(** A string that starts with a non-space rune is not trimmed away. *)
Lemma TrimSpace_non_empty (s : gostring) :
  starts_non_space s -> strings.TrimSpace s <> [].
Proof.
  intros Hs. unfold strings.TrimSpace, strings.TrimFunc, strings.TrimLeftFunc.
  rewrite (indexFunc_starts_non_space s Hs), drop_0.
  apply TrimRightFunc_non_empty. assumption.
Qed.

(** ** Trimming twice *)

Lemma scan_back_le (k : nat) (s : gostring) (lim : Z) :
  forall start, utf8.scan_back k s lim start <= start.
Proof.
  induction k as [|k IH]; intros start; simpl; [lia|].
  destruct (start <? lim); [lia|].
  destruct (utf8.RuneStart _); [lia|].
  specialize (IH (start - 1)). lia.
Qed.

(** The last rune, whatever it is, spans the bytes its width says: the
    suffix of that width decodes with that width. *)
Lemma DecodeLastRune_shape (s : gostring) (r : Z) (size : nat) :
  s <> [] ->
  utf8.DecodeLastRuneInString s = (r, size) ->
  (1 <= size <= length s)%nat /\
  (utf8.DecodeRuneInString (drop (length s - size) s)).2 = size.
Proof.
  intros Hs H.
  assert (Hlen : (1 <= length s)%nat) by (destruct s; simpl; [congruence|lia]).
  assert (Hone : (utf8.DecodeRuneInString (drop (length s - 1) s)).2 = 1%nat).
  { rewrite drop_last_byte by assumption.
    pose proof (DecodeRune_width [nth (length s - 1) s zero] ltac:(discriminate)) as Hw.
    cbn [length] in Hw. lia. }
  unfold utf8.DecodeLastRuneInString in H.
  destruct (Z.of_nat (length s) =? 0) eqn:H0; [apply Z.eqb_eq in H0; lia|].
  destruct (_ <? utf8.RuneSelf).
  { inversion H; subst. split; [lia|assumption]. }
  set (sb := utf8.scan_back _ _ _ _) in H.
  assert (Hsb : sb <= Z.of_nat (length s) - 1 - 1) by apply scan_back_le.
  destruct (utf8.DecodeRuneInString (drop (Z.to_nat (Z.max 0 sb)) s))
    as [r' size'] eqn:Hd.
  destruct (Z.max 0 sb + Z.of_nat size' =? Z.of_nat (length s)) eqn:He;
    simpl in H; inversion H; subst; [|split; [lia|assumption]].
  apply Z.eqb_eq in He. split; [lia|].
  replace (length s - size)%nat with (Z.to_nat (Z.max 0 sb)) by lia.
  rewrite Hd. reflexivity.
Qed.

(** The first byte of a string that starts with a space rune is not a
    continuation byte. *)
Lemma space_first_byte (c : ascii) (t : gostring) :
  unicode.IsSpace (utf8.DecodeRuneInString (c :: t)).1 = true ->
  byte_val c < 0x80 \/ 0xC2 <= byte_val c.
Proof.
  unfold utf8.DecodeRuneInString, utf8.first. intros H.
  destruct (byte_val c <? 128) eqn:H1; [apply Z.ltb_lt in H1; lia|].
  destruct (byte_val c <? 194) eqn:H2; [discriminate|].
  apply Z.ltb_ge in H2. lia.
Qed.

Lemma first_multi_range (b : Z) (sz : nat) (lo hi : Z) :
  utf8.first b = utf8.multi sz lo hi ->
  (2 <= sz)%nat /\ 0x80 <= lo /\ hi <= 0xBF.
Proof.
  unfold utf8.first.
  repeat match goal with |- context [if ?c then _ else _] => destruct c end;
    intros H; inversion H; subst; lia.
Qed.

(** A string that decodes as one rune of its own length keeps that width
    when nothing, or a space, follows. *)
Lemma DecodeRune_exact_app (e rest : gostring) :
  e <> [] ->
  (utf8.DecodeRuneInString e).2 = length e ->
  rest = [] \/ unicode.IsSpace (utf8.DecodeRuneInString rest).1 = true ->
  (utf8.DecodeRuneInString (e ++ rest)).2 = length e.
Proof.
  intros He Hw [->|Hrest]; [rewrite app_nil_r; assumption|].
  destruct rest as [|x rest]; [discriminate|].
  apply space_first_byte in Hrest.
  revert Hw. unfold utf8.DecodeRuneInString.
  destruct e as [|c0 t]; [congruence|]. cbn [app].
  destruct (utf8.first (byte_val c0)) as [| |sz lo hi] eqn:Hf; auto.
  destruct (first_multi_range _ _ _ _ Hf) as (Hsz & Hlo & Hhi).
  cbn [length]. rewrite length_app. cbn [length].
  destruct (S (length t) <? sz)%nat eqn:Hlen; cbn [snd].
  - intros Hw. assert (t = []) by (destruct t; [reflexivity|simpl in Hw; lia]).
    subst t. cbn [app length]. clear Hlen.
    destruct (S (_ + _) <? sz)%nat; [reflexivity|].
    replace ((byte_val x <? lo) || (hi <? byte_val x)) with true; [reflexivity|].
    symmetry. apply orb_true_iff.
    destruct Hrest; [left; apply Z.ltb_lt|right; apply Z.ltb_lt]; lia.
  - apply Nat.ltb_ge in Hlen.
    replace (S (length t + S (length rest)) <? sz)%nat with false
      by (symmetry; apply Nat.ltb_ge; lia).
    destruct t as [|c1 t1]; [simpl in Hlen; lia|]. cbn [app].
    destruct ((byte_val c1 <? lo) || (hi <? byte_val c1)); [simpl; lia|].
    destruct (sz <=? 2)%nat; [auto|].
    destruct t1 as [|c2 t2]; [simpl; lia|]. cbn [app].
    destruct ((byte_val c2 <? utf8.locb) || (utf8.hicb <? byte_val c2));
      [simpl; lia|].
    destruct (sz <=? 3)%nat; [auto|].
    destruct t2 as [|c3 t3]; [simpl; lia|]. cbn [app].
    destruct ((byte_val c3 <? utf8.locb) || (utf8.hicb <? byte_val c3));
      [simpl; lia|auto].
Qed.

(** Where the backward loop stops, the forward step of [TrimRightFunc]
    lands on the end of what the loop was looking at. *)
Lemma DecodeLastRune_closing (s rest : gostring) (r : Z) (size : nat) :
  s <> [] ->
  utf8.DecodeLastRuneInString s = (r, size) ->
  rest = [] \/ unicode.IsSpace (utf8.DecodeRuneInString rest).1 = true ->
  (if utf8.RuneSelf <=? utf8.at_index (s ++ rest) (Z.of_nat (length s - size))
   then (length s - size
         + (utf8.DecodeRuneInString (drop (length s - size) (s ++ rest))).2)%nat
   else (length s - size + 1)%nat) = length s.
Proof.
  intros Hs Hd Hrest.
  destruct (DecodeLastRune_shape s r size Hs Hd) as [Hsize Hw].
  set (i := (length s - size)%nat) in *.
  assert (Hi : (i < length s)%nat) by (subst i; lia).
  destruct (lookup_lt_is_Some_2 s i Hi) as [x Hx].
  assert (He : drop i s = x :: drop (S i) s) by (apply drop_S; assumption).
  assert (Hlen : length (drop i s) = size) by (rewrite length_drop; subst i; lia).
  unfold utf8.at_index. rewrite Nat2Z.id.
  rewrite (nth_lookup_Some (s ++ rest) i zero x)
    by (rewrite lookup_app_l; assumption).
  rewrite drop_app_le by lia.
  destruct (utf8.RuneSelf <=? byte_val x) eqn:Hx80.
  - rewrite DecodeRune_exact_app; [lia| |lia|assumption].
    rewrite He. discriminate.
  - apply Z.leb_gt in Hx80. unfold utf8.RuneSelf in Hx80.
    rewrite He in Hw. unfold utf8.DecodeRuneInString, utf8.first in Hw.
    replace (byte_val x <? 128) with true in Hw
      by (symmetry; apply Z.ltb_lt; lia).
    cbn in Hw. lia.
Qed.

(** What the backward loop finds: the end [j] of a rune that is not a
    space, everything after [j] being spaces. *)
Lemma lastIndexFunc_loop_found (t : gostring) (fuel : nat) :
  forall (j0 i0 : nat),
    (j0 <= length t)%nat ->
    drop j0 t = [] \/
      unicode.IsSpace (utf8.DecodeRuneInString (drop j0 t)).1 = true ->
    strings.lastIndexFunc_loop unicode.IsSpace false fuel t j0 = Some i0 ->
    exists j r size,
      (0 < j <= length t)%nat /\
      utf8.DecodeLastRuneInString (take j t) = (r, size) /\
      unicode.IsSpace r = false /\
      i0 = (j - size)%nat /\
      (drop j t = [] \/
       unicode.IsSpace (utf8.DecodeRuneInString (drop j t)).1 = true).
Proof.
  induction fuel as [|fuel IH]; intros j0 i0 Hj0 Hinv H; [discriminate|].
  cbn [strings.lastIndexFunc_loop] in H.
  destruct (Nat.eqb_spec j0 0) as [->|Hnz]; [discriminate|].
  destruct (utf8.DecodeLastRuneInString (take j0 t)) as [r size] eqn:Hd.
  destruct (unicode.IsSpace r) eqn:Hr; cbn [Bool.eqb] in H.
  - destruct (DecodeLastRune_space _ _ _ Hd Hr) as [Hsize Hdec].
    rewrite length_take in Hsize, Hdec.
    replace (Nat.min j0 (length t)) with j0 in * by lia.
    apply IH in H; [assumption|lia|].
    right. rewrite <- (take_drop j0 t) at 1.
    rewrite drop_app_le by (rewrite length_take; lia).
    rewrite DecodeRune_space_app; rewrite Hdec; assumption.
  - inversion H; subst i0. exists j0, r, size.
    repeat split; auto; lia.
Qed.

Lemma TrimRightFunc_stable (t : gostring) :
  strings.TrimRightFunc (strings.TrimRightFunc t unicode.IsSpace) unicode.IsSpace
  = strings.TrimRightFunc t unicode.IsSpace.
Proof.
  unfold strings.TrimRightFunc at 2 3. unfold strings.lastIndexFunc.
  destruct (strings.lastIndexFunc_loop _ _ _ t _) as [i0|] eqn:H;
    [|reflexivity].
  apply lastIndexFunc_loop_found in H as (j & r & size & Hj & Hd & Hr & -> & Hinv);
    [|lia|left; apply drop_all].
  assert (Hne : take j t <> []).
  { intros He. apply (f_equal length) in He. rewrite length_take in He.
    cbn [length] in He. lia. }
  assert (Hlen : length (take j t) = j) by (rewrite length_take; lia).
  pose proof (DecodeLastRune_closing (take j t) (drop j t) r size Hne Hd Hinv)
    as Hclose.
  rewrite take_drop, Hlen in Hclose.
  assert (Hu : (if utf8.RuneSelf <=? utf8.at_index t (Z.of_nat (j - size))
                then let '(_, wid) := utf8.DecodeRuneInString (drop (j - size) t) in
                     take (j - size + wid) t
                else take (j - size + 1) t) = take j t).
  { destruct (utf8.RuneSelf <=? _);
      [destruct (utf8.DecodeRuneInString (drop (j - size) t)); cbn [snd] in Hclose|];
      rewrite Hclose; reflexivity. }
  rewrite Hu. clear Hu Hclose.
  pose proof (DecodeLastRune_closing (take j t) [] r size Hne Hd (or_introl eq_refl))
    as Hclose.
  rewrite app_nil_r, Hlen in Hclose.
  unfold strings.TrimRightFunc, strings.lastIndexFunc. rewrite Hlen.
  destruct j as [|j]; [lia|]. cbn [strings.lastIndexFunc_loop Nat.eqb].
  rewrite <- Hlen at 1. rewrite firstn_all, Hd, Hr. cbn [Bool.eqb].
  destruct (utf8.RuneSelf <=? _);
    [destruct (utf8.DecodeRuneInString (drop (S j - size) (take (S j) t)));
     cbn [snd] in Hclose|];
    rewrite Hclose; rewrite <- Hlen at 1; apply firstn_all.
Qed.

(** Trimming what is trimmed changes nothing. *)
Lemma TrimSpace_idempotent (s : gostring) :
  strings.TrimSpace (strings.TrimSpace s) = strings.TrimSpace s.
Proof.
  destruct (TrimSpace_starts s) as [He|Hst]; [rewrite He; reflexivity|].
  unfold strings.TrimSpace, strings.TrimFunc in *.
  unfold strings.TrimLeftFunc at 1.
  rewrite (indexFunc_starts_non_space _ Hst), drop_0.
  apply TrimRightFunc_stable.
Qed.

(** ** The loops have fuel enough

    Each loop is given the length of its string as fuel and consumes at
    least one byte per turn, so it never stops for lack of fuel: more fuel
    changes nothing. *)

Lemma indexFunc_loop_fuel (f : Z -> bool) (truth : bool) (fuel : nat) :
  forall (s : gostring) (i : nat),
    (length s <= fuel)%nat ->
    strings.indexFunc_loop f truth fuel s i =
    strings.indexFunc_loop f truth (length s) s i.
Proof.
  induction fuel as [fuel IH] using lt_wf_ind. intros s i Hfuel.
  destruct s as [|c t]; [destruct fuel; reflexivity|].
  destruct fuel as [|fuel]; [simpl in Hfuel; lia|].
  cbn [length strings.indexFunc_loop].
  destruct (utf8.DecodeRuneInString (c :: t)) as [r w] eqn:Hd.
  destruct (Bool.eqb (f r) truth); [reflexivity|].
  pose proof (DecodeRune_width (c :: t) ltac:(discriminate)) as Hw.
  rewrite Hd in Hw. simpl in Hw, Hfuel.
  assert (Hlen : (length (drop w (c :: t)) <= length t)%nat)
    by (rewrite length_drop; simpl; lia).
  rewrite (IH fuel) by lia.
  rewrite (IH (length t)) by lia. reflexivity.
Qed.

Lemma DecodeLastRune_width (s : gostring) :
  s <> [] ->
  (1 <= (utf8.DecodeLastRuneInString s).2 <= length s)%nat.
Proof.
  intros Hs. unfold utf8.DecodeLastRuneInString.
  assert (Hlen : (1 <= length s)%nat) by (destruct s; simpl; [congruence|lia]).
  destruct (Z.of_nat (length s) =? 0) eqn:H0; [apply Z.eqb_eq in H0; lia|].
  destruct (_ <? utf8.RuneSelf); [simpl; lia|].
  set (sb := utf8.scan_back _ _ _ _).
  assert (Hsb : sb <= Z.of_nat (length s) - 1 - 1) by apply scan_back_le.
  destruct (utf8.DecodeRuneInString (drop (Z.to_nat (Z.max 0 sb)) s))
    as [r size] eqn:Hd.
  destruct (Z.max 0 sb + Z.of_nat size =? Z.of_nat (length s)) eqn:He; simpl;
    [|lia].
  apply Z.eqb_eq in He. lia.
Qed.

Lemma lastIndexFunc_loop_fuel (f : Z -> bool) (truth : bool) (s : gostring)
    (fuel : nat) :
  forall (i : nat),
    (i <= length s)%nat -> (i <= fuel)%nat ->
    strings.lastIndexFunc_loop f truth fuel s i =
    strings.lastIndexFunc_loop f truth i s i.
Proof.
  induction fuel as [fuel IH] using lt_wf_ind. intros i Hi Hfuel.
  destruct i as [|i]; [destruct fuel; reflexivity|].
  destruct fuel as [|fuel]; [lia|].
  cbn [strings.lastIndexFunc_loop Nat.eqb].
  destruct (utf8.DecodeLastRuneInString (take (S i) s)) as [r size] eqn:Hd.
  destruct (Bool.eqb (f r) truth); [reflexivity|].
  assert (Hne : take (S i) s <> []).
  { intros He. apply (f_equal length) in He. rewrite length_take in He.
    cbn [length] in He. lia. }
  pose proof (DecodeLastRune_width _ Hne) as Hw. rewrite Hd in Hw. simpl in Hw.
  rewrite (IH fuel) by lia.
  rewrite (IH i) by lia. reflexivity.
Qed.

Lemma Map_loop_fuel (mapping : Z -> Z) (fuel : nat) :
  forall (s : gostring),
    (length s <= fuel)%nat ->
    strings.Map_loop mapping fuel s = strings.Map_loop mapping (length s) s.
Proof.
  induction fuel as [fuel IH] using lt_wf_ind. intros s Hfuel.
  destruct s as [|c t]; [destruct fuel; reflexivity|].
  destruct fuel as [|fuel]; [simpl in Hfuel; lia|].
  cbn [length strings.Map_loop].
  destruct (utf8.DecodeRuneInString (c :: t)) as [r w] eqn:Hd.
  pose proof (DecodeRune_width (c :: t) ltac:(discriminate)) as Hw.
  rewrite Hd in Hw. simpl in Hw, Hfuel.
  assert (Hlen : (length (drop w (c :: t)) <= length t)%nat)
    by (rewrite length_drop; simpl; lia).
  rewrite (IH fuel) by lia.
  rewrite (IH (length t)) by lia. reflexivity.
Qed.

(** ** Lower-casing keeps a string non-empty *)

Lemma EncodeRune_non_empty (r : Z) : utf8.EncodeRune r <> [].
Proof.
  unfold utf8.EncodeRune, utf8.encode3.
  repeat match goal with |- context [if ?c then _ else _] => destruct c end;
    discriminate.
Qed.

Lemma unicode_ToLower_nonneg (to_lower : Z -> Z) (r : Z) :
  (forall x, 0 <= x -> 0 <= to_lower x) ->
  0 <= r -> 0 <= unicode.ToLower to_lower r.
Proof.
  intros Ht Hr. unfold unicode.ToLower.
  destruct (r <=? unicode.MaxASCII); [|auto].
  destruct (_ && _); lia.
Qed.

Lemma strings_ToLower_non_empty (to_lower : Z -> Z) (s : gostring) :
  (forall x, 0 <= x -> 0 <= to_lower x) ->
  s <> [] -> strings.ToLower to_lower s <> [].
Proof.
  intros Ht Hs. unfold strings.ToLower.
  destruct (forallb _ s).
  - destruct (negb _); [assumption|].
    destruct s; [congruence|discriminate].
  - unfold strings.Map. destruct s as [|c t]; [congruence|].
    cbn [length strings.Map_loop].
    destruct (utf8.DecodeRuneInString (c :: t)) as [r w] eqn:Hd.
    pose proof (DecodeRune_nonneg (c :: t)) as Hr. rewrite Hd in Hr. simpl in Hr.
    pose proof (unicode_ToLower_nonneg to_lower r Ht Hr) as Hl.
    apply Z.leb_le in Hl. rewrite Hl.
    intros He. apply app_eq_nil in He as [He _].
    exact (EncodeRune_non_empty _ He).
Qed.

Lemma byte_of_byte_val (c : ascii) : byte_of (byte_val c) = c.
Proof.
  unfold byte_of. pose proof (byte_val_range c) as Hr.
  rewrite Z.mod_small by lia. unfold byte_val.
  rewrite N2Z.id. apply ascii_N_embedding.
Qed.

Lemma byte_val_byte_of (z : Z) : 0 <= z < 256 -> byte_val (byte_of z) = z.
Proof.
  intros Hz. unfold byte_val, byte_of. rewrite Z.mod_small by lia.
  rewrite N_ascii_embedding by lia. lia.
Qed.

Lemma lowerByte_ascii (c : ascii) :
  byte_val c < 0x80 -> byte_val (strings.lowerByte c) < 0x80.
Proof.
  intros Hc. unfold strings.lowerByte, strings.isUpperByte.
  destruct (_ && _) eqn:Hu; [|assumption].
  apply andb_true_iff in Hu as [_ Hu]. apply Z.leb_le in Hu.
  pose proof (byte_val_range c). rewrite byte_val_byte_of; lia.
Qed.

(** Lower-casing a string that starts with an ASCII byte lower-cases that
    byte. *)
Lemma strings_ToLower_head (to_lower : Z -> Z) (c : ascii) (t : gostring) :
  byte_val c < 0x80 ->
  exists l, strings.ToLower to_lower (c :: t) = strings.lowerByte c :: l.
Proof.
  intros Hc. unfold strings.ToLower.
  destruct (forallb _ (c :: t)).
  - destruct (existsb strings.isUpperByte (c :: t)) eqn:Hup; cbn [negb].
    + eexists. reflexivity.
    + cbn [existsb] in Hup. apply orb_false_iff in Hup as [Hup _].
      unfold strings.lowerByte. rewrite Hup. eexists. reflexivity.
  - unfold strings.Map. cbn [length strings.Map_loop].
    pose proof (byte_val_range c) as Hr.
    assert (Hd : utf8.DecodeRuneInString (c :: t) = (byte_val c, 1%nat)).
    { unfold utf8.DecodeRuneInString, utf8.first.
      replace (byte_val c <? 128) with true by (symmetry; apply Z.ltb_lt; exact Hc).
      reflexivity. }
    rewrite Hd. unfold unicode.ToLower, unicode.MaxASCII.
    replace (byte_val c <=? 127) with true by (symmetry; apply Z.leb_le; lia).
    unfold strings.lowerByte, strings.isUpperByte.
    destruct ((65 <=? byte_val c) && (byte_val c <=? 90)) eqn:Hu.
    + apply andb_true_iff in Hu as [Hu1 Hu2].
      apply Z.leb_le in Hu1. apply Z.leb_le in Hu2.
      replace (0 <=? byte_val c + (97 - 65)) with true
        by (symmetry; apply Z.leb_le; lia).
      unfold utf8.EncodeRune.
      replace (byte_val c + (97 - 65) <? 0) with false
        by (symmetry; apply Z.ltb_ge; lia).
      replace (byte_val c + (97 - 65) <=? 127) with true
        by (symmetry; apply Z.leb_le; lia).
      eexists. reflexivity.
    + replace (0 <=? byte_val c) with true by (symmetry; apply Z.leb_le; lia).
      unfold utf8.EncodeRune.
      replace (byte_val c <? 0) with false by (symmetry; apply Z.ltb_ge; lia).
      replace (byte_val c <=? 127) with true by (symmetry; apply Z.leb_le; lia).
      rewrite byte_of_byte_val. eexists. reflexivity.
Qed.

(** Trimming a string that starts with a non-space rune keeps its first
    byte. *)
Lemma TrimSpace_head (c : ascii) (t : gostring) :
  starts_non_space (c :: t) ->
  exists t', strings.TrimSpace (c :: t) = c :: t'.
Proof.
  intros Hs. pose proof (TrimSpace_non_empty _ Hs) as Hne.
  unfold strings.TrimSpace, strings.TrimFunc, strings.TrimLeftFunc in *.
  rewrite (indexFunc_starts_non_space _ Hs), drop_0 in *.
  destruct (TrimRightFunc_is_take (c :: t)) as [n Hn]. rewrite Hn in *.
  destruct n as [|n]; [cbn in Hne; congruence|].
  eexists. reflexivity.
Qed.

(** [%c] of an ASCII byte is that byte. *)
Lemma fmtC_ascii (c : ascii) : byte_val c < 0x80 -> fmt.fmtC (byte_val c) = [c].
Proof.
  intros Hc. pose proof (byte_val_range c) as Hr.
  unfold fmt.fmtC, utf8.MaxRune, utf8.EncodeRune.
  replace (1114111 <? byte_val c) with false by (symmetry; apply Z.ltb_ge; lia).
  replace (byte_val c <? 0) with false by (symmetry; apply Z.ltb_ge; lia).
  replace (byte_val c <=? 127) with true by (symmetry; apply Z.leb_le; lia).
  rewrite byte_of_byte_val. reflexivity.
Qed.

(** ** Splitting *)

Lemma SplitN_2_cases (s sep : gostring) :
  strings.SplitN s sep 2 = [s] \/
  exists m, strings.Index s sep = Some m /\
            strings.SplitN s sep 2 = [take m s; drop (m + length sep) s].
Proof.
  unfold strings.SplitN. destruct s as [|c t].
  - left. reflexivity.
  - replace (Nat.min 2 (length (c :: t) + 1) - 1)%nat with 1%nat
      by (cbn [length]; lia).
    cbn [strings.genSplit_loop].
    destruct (strings.Index (c :: t) sep) as [m|]; [right|left; reflexivity].
    exists m. split; reflexivity.
Qed.

Lemma SplitN_2_index0 (s sep : gostring) :
  exists p0, index (strings.SplitN s sep 2) 0 = returns p0.
Proof.
  destruct (SplitN_2_cases s sep) as [->|(m & _ & ->)]; eexists; reflexivity.
Qed.

Lemma space_byte_is_space (t : gostring) :
  unicode.IsSpace (utf8.DecodeRuneInString (" "%char :: t)).1 = true.
Proof. reflexivity. Qed.

(** The first of two tokens cut at the first space, in a string that
    starts with a non-space rune, starts with that rune too. *)
Lemma SplitN_space_first_token (s n0 n1 : gostring) :
  starts_non_space s ->
  strings.SplitN s (str " ") 2 = [n0; n1] ->
  starts_non_space n0.
Proof.
  intros Hs Hsplit.
  destruct (SplitN_2_cases s (str " ")) as [He|(m & Hm & He)];
    rewrite He in Hsplit; [discriminate|].
  inversion Hsplit; subst n0 n1; clear Hsplit He.
  apply starts_non_space_take; [|assumption].
  destruct Hs as [Hne Hf]. destruct s as [|c t]; [congruence|].
  destruct m as [|m]; [|simpl; discriminate].
  cbn [strings.Index strings.HasPrefix str list_ascii_of_string] in Hm.
  destruct (Ascii.eqb_spec " " c) as [<-|Hc].
  - rewrite space_byte_is_space in Hf. discriminate.
  - destruct (strings.Index t _); discriminate.
Qed.

(** The name [ByInitials] passes to [buildEmail] is trimmed: its first
    token, when there are two, survives trimming and lower-casing. *)
Lemma first_token_lowered {P : Platform} (p0 n0 n1 : gostring) :
  (forall r, 0 <= r -> 0 <= unicode_To_LowerCase r) ->
  strings.SplitN (strings.TrimSpace p0) (str " ") 2 = [n0; n1] ->
  n0 <> [] /\ ToLower (strings.TrimSpace n0) <> [].
Proof.
  intros Ht Hsplit.
  destruct (TrimSpace_starts p0) as [He|Hst].
  - rewrite He in Hsplit. discriminate.
  - pose proof (SplitN_space_first_token _ _ _ Hst Hsplit) as Hn0.
    split; [apply Hn0|].
    apply strings_ToLower_non_empty; [assumption|].
    apply TrimSpace_non_empty. assumption.
Qed.

(** * The lookup *)

Section Lookup.
Context `{P : Platform}.

Lemma Sprintf_s_at_s (x y : gostring) :
  fmt.Sprintf (str "%s@%s") [fmt.string_arg x; fmt.string_arg y]
  = x ++ str "@" ++ y.
Proof. cbn. rewrite app_nil_r. reflexivity. Qed.

Lemma Errorf_unknown_initials (initials : gostring) :
  fmt.Errorf (str "unknown initials %s") [fmt.string_arg initials]
  = fmt_error (str "unknown initials " ++ initials).
Proof. unfold fmt.Errorf. cbn. rewrite app_nil_r. reflexivity. Qed.

Lemma deref_bind {A B : Type} (x : A) (k : A -> outcome B) :
  (y ← deref (Some x); k y) = k x.
Proof. reflexivity. Qed.

(** Unfolds the chain of [buildEmail] for a configuration whose file is
    not nil. *)
Ltac open_chain Hf :=
  unfold buildEmail_chain; rewrite Hf, deref_bind; cbv beta.

(** A nil [file] is dereferenced at the first step. *)
Lemma ByInitials_nil (a : Pairs) (initials : gostring) (w : World) :
  file a = None -> ByInitials a initials w = (panics, w).
Proof.
  intros Hf. unfold ByInitials. rewrite Hf. reflexivity.
Qed.

Lemma ByInitials_absent (a : Pairs) (f : pairsFile) (initials : gostring)
    (w : World) :
  file a = Some f ->
  pairsFile_Pairs f !! initials = None ->
  ByInitials a initials w
  = (returns (None, Some (fmt_error (str "unknown initials " ++ initials))), w).
Proof.
  intros Hf Hl. unfold ByInitials. rewrite Hf. cbn [deref].
  rewrite Hl, Errorf_unknown_initials. reflexivity.
Qed.

(** [ByInitials] on an entry of the authors map: [buildEmail] on the parsed
    name and username, and the pair made of its email. *)
Lemma ByInitials_present (a : Pairs) (f : pairsFile)
    (initials pairString : gostring) (w : World) :
  file a = Some f ->
  pairsFile_Pairs f !! initials = Some pairString ->
  ByInitials a initials w
  = let r := buildEmail a initials (name_of pairString) (username_of pairString) w in
    (pair_of_email initials (name_of pairString) (username_of pairString) r.1, r.2).
Proof.
  intros Hf Hl. unfold ByInitials, name_of, username_of. rewrite Hf.
  cbn [deref]. rewrite Hl.
  destruct (SplitN_2_cases pairString (str ";")) as [->|(m & _ & ->)]; cbn;
    destruct (buildEmail _ _ _ _ _) as [[[email [err|]]|] w']; reflexivity.
Qed.

Lemma buildEmail_no_answer (a : Pairs) (initials name username : gostring)
    (w w' : World) :
  no_lookup_answer a initials name username w w' ->
  buildEmail a initials name username w
  = (buildEmail_chain a initials name username, w').
Proof.
  unfold buildEmail. intros [[-> ->]|(Hne & out & Hrun & Hout)]; [reflexivity|].
  destruct (emailLookup a); [congruence|]. cbn [non_empty].
  rewrite Hrun, Hout. reflexivity.
Qed.

Lemma buildEmail_chain_error (a : Pairs) (initials name username email : gostring)
    (e : error) :
  buildEmail_chain a initials name username = returns (email, Some e) ->
  exists msg, e = template_error msg.
Proof.
  unfold buildEmail_chain. intros H.
  destruct (file a) as [f|]; [|discriminate].
  rewrite deref_bind in H. cbv beta in H.
  destruct (EmailAddresses f !! initials); [discriminate|].
  destruct (non_empty (EmailTemplate f)).
  { destruct (template_Parse _) as [t|msg].
    - destruct (template_Execute _ _) as [out|msg]; inversion H; eauto.
    - inversion H; eauto. }
  destruct (non_empty username); [discriminate|].
  destruct (_ =? _)%nat.
  - destruct (index _ 0) as [n0|]; [|discriminate]. cbn in H.
    destruct (index (ToLower _) 0) as [c|]; [|discriminate]. cbn in H.
    destruct (index _ 1) as [n1|]; discriminate.
  - destruct (index _ 0) as [n0|]; discriminate.
Qed.

(** An error of [buildEmail] comes from the command or from the
    template. *)
Lemma buildEmail_error (a : Pairs) (initials name username email : gostring)
    (e : error) (w w' : World) :
  buildEmail a initials name username w = (returns (email, Some e), w') ->
  ResolutionFailure e.
Proof.
  unfold buildEmail, ResolutionFailure. intros H.
  destruct (non_empty (emailLookup a)).
  - destruct (exec_Run _ _ _) as [[out [msg|]] w1].
    + inversion H; eauto.
    + destruct (non_empty _); [discriminate|].
      inversion H as [[Hc Hw]].
      apply buildEmail_chain_error in Hc as [msg ->]. eauto.
  - inversion H as [[Hc Hw]].
    apply buildEmail_chain_error in Hc as [msg ->]. eauto.
Qed.

Lemma ResolutionFailure_not_UnknownInitials (initials : gostring) (e : error) :
  ResolutionFailure e -> ~ UnknownInitials initials e.
Proof.
  intros [msg [->| ->]] Hu; discriminate Hu.
Qed.

(** X13. For a configuration whose file is not nil, [ByInitials] fails
    with the unknown-initials error, which carries the initials asked for,
    exactly when the initials are not a key of the authors map; for
    initials that are a key, no error it returns is an unknown-initials
    error, whatever initials that error would carry. *)
Theorem ByInitials_unknown_initials_iff (a : Pairs) (f : pairsFile)
    (initials : gostring) (w : World) :
  file a = Some f ->
  (pairsFile_Pairs f !! initials = None <->
   exists e, (ByInitials a initials w).1 = returns (None, Some e) /\
             UnknownInitials initials e) /\
  (is_Some (pairsFile_Pairs f !! initials) ->
   forall p e other,
     (ByInitials a initials w).1 = returns (p, Some e) ->
     ~ UnknownInitials other e).
Proof.
  intros Hf.
  assert (Hpresent : is_Some (pairsFile_Pairs f !! initials) ->
            forall p e other,
              (ByInitials a initials w).1 = returns (p, Some e) ->
              ~ UnknownInitials other e).
  { intros [pairString Hl] p e other H.
    rewrite (ByInitials_present _ _ _ _ _ Hf Hl) in H. cbn in H.
    destruct (buildEmail _ _ _ _ _) as [[[email [err|]]|] w'] eqn:Hb;
      cbn in H; inversion H; subst.
    apply ResolutionFailure_not_UnknownInitials.
    eapply buildEmail_error. eassumption. }
  split; [split|assumption].
  - intros Hl. rewrite (ByInitials_absent _ _ _ _ Hf Hl).
    eexists. split; reflexivity.
  - intros (e & H & Hu).
    destruct (pairsFile_Pairs f !! initials) as [pairString|] eqn:Hl;
      [|reflexivity].
    exfalso. eapply Hpresent; eauto.
Qed.

(** C4. With an external lookup command configured, the command is run
    with the arguments initials, name, username.  If running it gives an
    error, the lookup returns that error and no pair; if what it wrote,
    trimmed, is not empty, that is the email of the pair returned; if it is
    empty, the lookup goes on with the chain that starts at the override
    map, whose entry for the initials, if any, is the email. *)
Theorem external_lookup_contract (a : Pairs) (f : pairsFile)
    (initials pairString : gostring)
    (w w' : World) (out : gostring) (err : option gostring) :
  file a = Some f ->
  emailLookup a <> [] ->
  pairsFile_Pairs f !! initials = Some pairString ->
  exec_Run (emailLookup a)
    [initials; name_of pairString; username_of pairString] w
  = ((out, err), w') ->
  match err with
  | Some msg =>
      ByInitials a initials w = (returns (None, Some (exec_error msg)), w') /\
      ResolutionFailure (exec_error msg)
  | None =>
      if non_empty (strings.TrimSpace out) then
        ByInitials a initials w
        = (returns (Some {| Name := name_of pairString;
                            Email := strings.TrimSpace out;
                            Initials := initials;
                            Username := username_of pairString |}, None), w')
      else
        ByInitials a initials w
        = (pair_of_email initials (name_of pairString) (username_of pairString)
             (buildEmail_chain a initials (name_of pairString)
                (username_of pairString)), w') /\
        forall e, EmailAddresses f !! initials = Some e ->
          ByInitials a initials w
          = (returns (Some {| Name := name_of pairString;
                              Email := e;
                              Initials := initials;
                              Username := username_of pairString |}, None), w')
  end.
Proof.
  intros Hf Hcmd Hl Hrun. rewrite (ByInitials_present _ _ _ _ _ Hf Hl).
  unfold buildEmail. destruct (emailLookup a) as [|c cmd] eqn:Hc; [congruence|].
  cbn [non_empty]. rewrite Hrun. destruct err as [msg|].
  - split; [reflexivity|]. exists msg. auto.
  - destruct (non_empty (strings.TrimSpace out)); [reflexivity|].
    split; [reflexivity|].
    intros e He. cbn [fst snd]. open_chain Hf. rewrite He. reflexivity.
Qed.

(** C5. A lookup that fails returns no pair, and its error is the
    unknown-initials error or a resolution failure; when the chain reaches
    the template, an error of parsing it and an error of executing it are
    each returned as they are, without a pair; and whatever error
    [buildEmail] returns, [ByInitials] returns that error and no pair. *)
Theorem lookup_failures_return_no_pair (a : Pairs) (initials : gostring)
    (w : World) :
  (forall p e w',
      ByInitials a initials w = (returns (p, Some e), w') ->
      p = None /\ (UnknownInitials initials e \/ ResolutionFailure e)) /\
  (forall f pairString w',
      file a = Some f ->
      pairsFile_Pairs f !! initials = Some pairString ->
      no_lookup_answer a initials (name_of pairString) (username_of pairString)
        w w' ->
      EmailAddresses f !! initials = None ->
      EmailTemplate f <> [] ->
      (forall msg,
          template_Parse (EmailTemplate f) = inr msg ->
          ByInitials a initials w
          = (returns (None, Some (template_error msg)), w') /\
          ResolutionFailure (template_error msg)) /\
      (forall t msg,
          template_Parse (EmailTemplate f) = inl t ->
          template_Execute t {| Initials := initials;
                                Name := name_of pairString;
                                Username := username_of pairString;
                                Email := [] |} = inr msg ->
          ByInitials a initials w
          = (returns (None, Some (template_error msg)), w') /\
          ResolutionFailure (template_error msg))) /\
  (forall f pairString email e w',
      file a = Some f ->
      pairsFile_Pairs f !! initials = Some pairString ->
      buildEmail a initials (name_of pairString) (username_of pairString) w
      = (returns (email, Some e), w') ->
      ByInitials a initials w = (returns (None, Some e), w')).
Proof.
  split; [|split].
  - intros p e w' H.
    destruct (file a) as [f|] eqn:Hf;
      [|rewrite (ByInitials_nil _ _ _ Hf) in H; discriminate].
    destruct (pairsFile_Pairs f !! initials) as [pairString|] eqn:Hl.
    + rewrite (ByInitials_present _ _ _ _ _ Hf Hl) in H. cbn in H.
      destruct (buildEmail _ _ _ _ _) as [[[email [err|]]|] w1] eqn:Hb;
        cbn in H; inversion H; subst.
      split; [reflexivity|]. right. eapply buildEmail_error. eassumption.
    + rewrite (ByInitials_absent _ _ _ _ Hf Hl) in H. inversion H; subst.
      split; [reflexivity|]. left. reflexivity.
  - intros f pairString w' Hf Hl Hno Hov Htmpl.
    rewrite (ByInitials_present _ _ _ _ _ Hf Hl),
      (buildEmail_no_answer _ _ _ _ _ _ Hno).
    cbn [fst snd]. open_chain Hf. rewrite Hov.
    destruct (EmailTemplate f) as [|c tmpl] eqn:Ht; [congruence|].
    cbn [non_empty]. split.
    + intros msg Hp. rewrite Hp. split; [reflexivity|]. exists msg. auto.
    + intros t msg Hp He. rewrite Hp, He. split; [reflexivity|].
      exists msg. auto.
  - intros f pairString email e w' Hf Hl Hb.
    rewrite (ByInitials_present _ _ _ _ _ Hf Hl), Hb. reflexivity.
Qed.

(** The parsed username is trimmed already. *)
Lemma username_of_trimmed (pairString : gostring) :
  strings.TrimSpace (username_of pairString) = username_of pairString.
Proof.
  unfold username_of. destruct (_ =? _)%nat; [|reflexivity].
  apply TrimSpace_idempotent.
Qed.

(** C7. When the external lookup gives no answer, the override map has no
    entry for the initials and no template is configured, a non-empty
    parsed username gives the email: the username, trimmed, then [@] and
    the configured domain; and trimming leaves the parsed username, which
    is the username of the pair, as it is. *)
Theorem username_strategy (a : Pairs) (f : pairsFile)
    (initials pairString : gostring) (w w' : World) :
  file a = Some f ->
  pairsFile_Pairs f !! initials = Some pairString ->
  no_lookup_answer a initials (name_of pairString) (username_of pairString)
    w w' ->
  EmailAddresses f !! initials = None ->
  EmailTemplate f = [] ->
  username_of pairString <> [] ->
  ByInitials a initials w
  = (returns (Some {| Name := name_of pairString;
                      Email := strings.TrimSpace (username_of pairString)
                               ++ str "@" ++ Domain (pairsFile_Email f);
                      Initials := initials;
                      Username := username_of pairString |}, None), w') /\
  strings.TrimSpace (username_of pairString) = username_of pairString.
Proof.
  intros Hf Hl Hno Hov Htmpl Hu. split; [|apply username_of_trimmed].
  rewrite (ByInitials_present _ _ _ _ _ Hf Hl),
    (buildEmail_no_answer _ _ _ _ _ _ Hno).
  cbn [fst snd]. open_chain Hf. rewrite Hov, Htmpl. cbn [non_empty].
  destruct (username_of pairString) as [|c u] eqn:Hun; [congruence|].
  cbn [non_empty]. rewrite Sprintf_s_at_s. reflexivity.
Qed.

(** With a command that answers the same on the same arguments, the result
    of a lookup does not depend on the state of the world. *)
Lemma ByInitials_world_independent (a : Pairs) (initials : gostring) :
  (forall name args w1 w2, (exec_Run name args w1).1 = (exec_Run name args w2).1) ->
  forall w1 w2, (ByInitials a initials w1).1 = (ByInitials a initials w2).1.
Proof.
  intros Hdet w1 w2.
  destruct (file a) as [f|] eqn:Hf;
    [|rewrite !(ByInitials_nil _ _ _ Hf); reflexivity].
  destruct (pairsFile_Pairs f !! initials) as [pairString|] eqn:Hl.
  - rewrite !(ByInitials_present _ _ _ _ _ Hf Hl). cbn. f_equal.
    unfold buildEmail. destruct (non_empty (emailLookup a)); [|reflexivity].
    specialize (Hdet (emailLookup a)
                  [initials; name_of pairString; username_of pairString] w1 w2).
    destruct (exec_Run _ _ w1) as [[out1 err1] w1'].
    destruct (exec_Run _ _ w2) as [[out2 err2] w2'].
    cbn in Hdet. inversion Hdet; subst.
    destruct err2; [reflexivity|]. destruct (non_empty _); reflexivity.
  - rewrite !(ByInitials_absent _ _ _ _ Hf Hl). reflexivity.
Qed.

(** C9. If the external command answers the same on the same arguments
    whatever the state of the world, a second lookup of the same initials,
    made after the first, gives the same result: the same error, or pairs
    whose four fields are equal. *)
Theorem ByInitials_idempotent (a : Pairs) (initials : gostring) :
  (forall name args w1 w2, (exec_Run name args w1).1 = (exec_Run name args w2).1) ->
  forall w,
    let first := ByInitials a initials w in
    let second := ByInitials a initials first.2 in
    first.1 = second.1 /\
    forall p1 p2 e1 e2,
      first.1 = returns (Some p1, e1) ->
      second.1 = returns (Some p2, e2) ->
      Name p1 = Name p2 /\ Email p1 = Email p2 /\
      Initials p1 = Initials p2 /\ Username p1 = Username p2.
Proof.
  intros Hdet w first second.
  assert (Heq : first.1 = second.1)
    by apply (ByInitials_world_independent a initials Hdet).
  split; [assumption|].
  intros p1 p2 e1 e2 H1 H2. rewrite Heq, H2 in H1.
  inversion H1; subst. auto.
Qed.

(** The chain does not panic on a trimmed name, the file not being
    nil. *)
Lemma buildEmail_chain_total (a : Pairs) (f : pairsFile)
    (initials p0 username : gostring) :
  (forall r, 0 <= r -> 0 <= unicode_To_LowerCase r) ->
  file a = Some f ->
  buildEmail_chain a initials (strings.TrimSpace p0) username <> panics.
Proof.
  intros Ht Hf. open_chain Hf.
  destruct (EmailAddresses f !! initials); [discriminate|].
  destruct (non_empty (EmailTemplate f)).
  { destruct (template_Parse _) as [t|msg]; [|discriminate].
    destruct (template_Execute _ _); discriminate. }
  destruct (non_empty username); [discriminate|].
  destruct (SplitN_2_cases (strings.TrimSpace p0) (str " "))
    as [He|(m & Hm & He)]; rewrite He; [discriminate|].
  destruct (first_token_lowered p0 _ _ Ht He) as [_ Hlow].
  cbn. destruct (ToLower _) as [|c l]; [congruence|]. discriminate.
Qed.

(** C10. Provided the case tables map runes to runes (no negative value),
    the first of two name tokens is never empty and the byte index [0] into
    its trimmed, lower-cased form is in bounds, for every string that is
    trimmed before it is split; so [buildEmail] does not panic on a trimmed
    name when the file of the configuration is not nil, which is how
    [ByInitials] calls it: [ByInitials] panics only when that file is nil,
    at its first step, before it reaches [buildEmail]. *)
Theorem buildEmail_index_in_bounds (a : Pairs) (initials : gostring) (w : World) :
  (forall r, 0 <= r -> 0 <= unicode_To_LowerCase r) ->
  (forall p0 n0 n1,
      strings.SplitN (strings.TrimSpace p0) (str " ") 2 = [n0; n1] ->
      n0 <> [] /\
      exists c, index (ToLower (strings.TrimSpace n0)) 0 = returns c) /\
  (forall p0 username,
      is_Some (file a) ->
      (buildEmail a initials (strings.TrimSpace p0) username w).1 <> panics) /\
  (forall f pairString,
      file a = Some f ->
      pairsFile_Pairs f !! initials = Some pairString ->
      (buildEmail a initials (name_of pairString) (username_of pairString) w).1
      <> panics) /\
  ((ByInitials a initials w).1 = panics <-> file a = None).
Proof.
  intros Ht.
  assert (Hb : forall p0 username,
             is_Some (file a) ->
             (buildEmail a initials (strings.TrimSpace p0) username w).1 <> panics).
  { intros p0 username [f Hf]. unfold buildEmail.
    pose proof (buildEmail_chain_total a f initials p0 username Ht Hf) as Hc.
    destruct (non_empty (emailLookup a)); [|assumption].
    destruct (exec_Run _ _ _) as [[out [msg|]] w']; [discriminate|].
    destruct (non_empty _); [discriminate|assumption]. }
  split; [|split; [assumption|split]].
  - intros p0 n0 n1 Hsplit.
    destruct (first_token_lowered p0 n0 n1 Ht Hsplit) as [Hn0 Hlow].
    split; [assumption|].
    destruct (ToLower _) as [|c l]; [congruence|]. exists c. reflexivity.
  - intros f pairString Hf Hl. unfold name_of. apply Hb. eauto.
  - destruct (file a) as [f|] eqn:Hf.
    + split; [|discriminate]. intros Hp. exfalso. revert Hp.
      destruct (pairsFile_Pairs f !! initials) as [pairString|] eqn:Hl.
      * rewrite (ByInitials_present _ _ _ _ _ Hf Hl). cbn.
        specialize (Hb (nth 0 (strings.SplitN pairString (str ";") 2) [])
                       (username_of pairString) ltac:(eauto)).
        fold (name_of pairString) in Hb.
        destruct (buildEmail _ _ _ _ _) as [[[email [err|]]|] w']; cbn in *;
          congruence.
      * rewrite (ByInitials_absent _ _ _ _ Hf Hl). discriminate.
    + split; [reflexivity|]. intros _.
      rewrite (ByInitials_nil _ _ _ Hf). reflexivity.
Qed.

Lemma Sprintf_c_s_at_s (c : ascii) (x y : gostring) :
  fmt.Sprintf (str "%c.%s@%s")
    [fmt.byte_arg c; fmt.string_arg x; fmt.string_arg y]
  = (fmt.fmtC (byte_val c) ++ str "." ++ x) ++ str "@" ++ y.
Proof.
  cbn. rewrite app_nil_r, <- !app_assoc. reflexivity.
Qed.

(** C8, as the code has it.  The prefix of the [email] section is never
    consulted: no lookup changes when it is changed.  The domain is what
    the two fallback strategies (username, name) append after [@]. *)
Theorem email_config_use (a : Pairs) (initials : gostring) (w : World) :
  (forall prefix,
      ByInitials (with_Prefix prefix a) initials w = ByInitials a initials w) /\
  (forall f name username,
      file a = Some f ->
      EmailAddresses f !! initials = None ->
      EmailTemplate f = [] ->
      exists local : outcome gostring,
        forall domain,
          buildEmail_chain (with_Domain domain a) initials name username
          = (l ← local; returns (l ++ str "@" ++ domain, None))).
Proof.
  split; [intros prefix; destruct a as [[f|] cmd]; reflexivity|].
  intros f name username Hf Hov Htmpl. unfold buildEmail_chain.
  cbn [with_Domain file]. rewrite Hf.
  cbn [fmap option_fmap option_map].
  change (deref (Some ?x) ≫= ?k) with (k x). cbv beta.
  cbn [EmailAddresses EmailTemplate pairsFile_Email Domain].
  rewrite Hov, Htmpl. cbn [non_empty].
  destruct (non_empty username).
  { exists (returns (strings.TrimSpace username)). intros domain.
    rewrite Sprintf_s_at_s. reflexivity. }
  destruct (length (strings.SplitN name (str " ") 2) =? 2)%nat.
  - exists (n0 ← index (strings.SplitN name (str " ") 2) 0;
            c ← index (ToLower (strings.TrimSpace n0)) 0;
            n1 ← index (strings.SplitN name (str " ") 2) 1;
            returns (fmt.fmtC (byte_val c) ++ str "." ++
                     ToLower (strings.TrimSpace n1))).
    intros domain.
    destruct (index _ 0) as [n0|]; [|reflexivity]. cbn [mbind outcome_bind].
    destruct (index (ToLower _) 0) as [c|]; [|reflexivity]. cbn [mbind outcome_bind].
    destruct (index _ 1) as [n1|]; [|reflexivity]. cbn [mbind outcome_bind].
    rewrite Sprintf_c_s_at_s. reflexivity.
  - exists (n0 ← index (strings.SplitN name (str " ") 2) 0;
            returns (ToLower (strings.TrimSpace n0))).
    intros domain.
    destruct (index _ 0) as [n0|]; [|reflexivity]. cbn [mbind outcome_bind].
    rewrite Sprintf_s_at_s. reflexivity.
Qed.

(** The short circuit: when the command answers, the authors file has no
    part in the email, whatever its override map, template and domain. *)
Lemma lookup_answer_wins (a a' : Pairs) (initials name username out : gostring)
    (w w' : World) :
  emailLookup a <> [] ->
  emailLookup a' = emailLookup a ->
  exec_Run (emailLookup a) [initials; name; username] w = ((out, None), w') ->
  strings.TrimSpace out <> [] ->
  buildEmail a initials name username w
  = (returns (strings.TrimSpace out, None), w') /\
  buildEmail a' initials name username w
  = (returns (strings.TrimSpace out, None), w').
Proof.
  intros Hcmd Heq Hrun Hout. unfold buildEmail. rewrite Heq.
  destruct (emailLookup a); [congruence|]. cbn [non_empty]. rewrite Hrun.
  destruct (strings.TrimSpace out); [congruence|]. split; reflexivity.
Qed.

(** The chain, as the code has it: an entry of the override map is the
    email as it is, the empty string too; failing that, a configured
    template decides, whatever it renders. *)
Lemma override_wins (a : Pairs) (f : pairsFile)
    (initials name username e : gostring) :
  file a = Some f ->
  EmailAddresses f !! initials = Some e ->
  buildEmail_chain a initials name username = returns (e, None).
Proof.
  intros Hf He. open_chain Hf. rewrite He. reflexivity.
Qed.

Lemma template_decides (a : Pairs) (f : pairsFile)
    (initials name username out : gostring) (t : Template) :
  file a = Some f ->
  EmailAddresses f !! initials = None ->
  EmailTemplate f <> [] ->
  template_Parse (EmailTemplate f) = inl t ->
  template_Execute t {| Initials := initials; Name := name;
                        Username := username; Email := [] |} = inl out ->
  buildEmail_chain a initials name username = returns (out, None).
Proof.
  intros Hf Hov Htmpl Hp He. open_chain Hf. rewrite Hov.
  destruct (EmailTemplate f); [congruence|]. cbn [non_empty].
  rewrite Hp, He. reflexivity.
Qed.

(** X6. The name strategy, where it does what its documentation says: with one
    token, the token, trimmed and lower-cased, then [@] and the domain;
    with two tokens of which the first starts with an ASCII byte, that
    byte lower-cased, a dot, the second token trimmed and lower-cased,
    then [@] and the domain. *)
Lemma name_strategy_ascii_initial (a : Pairs) (f : pairsFile)
    (initials pairString : gostring) (w w' : World) :
  file a = Some f ->
  pairsFile_Pairs f !! initials = Some pairString ->
  no_lookup_answer a initials (name_of pairString) (username_of pairString)
    w w' ->
  EmailAddresses f !! initials = None ->
  EmailTemplate f = [] ->
  username_of pairString = [] ->
  (forall n0,
      strings.SplitN (name_of pairString) (str " ") 2 = [n0] ->
      ByInitials a initials w
      = (returns (Some {| Name := name_of pairString;
                          Email := ToLower (strings.TrimSpace n0) ++ str "@"
                                   ++ Domain (pairsFile_Email f);
                          Initials := initials;
                          Username := [] |}, None), w')) /\
  (forall c0 t n1,
      strings.SplitN (name_of pairString) (str " ") 2 = [c0 :: t; n1] ->
      byte_val c0 < 0x80 ->
      ByInitials a initials w
      = (returns (Some {| Name := name_of pairString;
                          Email := strings.lowerByte c0 :: str "." ++
                                   ToLower (strings.TrimSpace n1) ++ str "@"
                                   ++ Domain (pairsFile_Email f);
                          Initials := initials;
                          Username := [] |}, None), w')).
Proof.
  intros Hf Hl Hno Hov Htmpl Hu.
  rewrite (ByInitials_present _ _ _ _ _ Hf Hl),
    (buildEmail_no_answer _ _ _ _ _ _ Hno).
  cbn [fst snd]. open_chain Hf.
  rewrite Hov, Htmpl, Hu. cbn [non_empty]. split.
  - intros n0 Hsplit. rewrite Hsplit. cbn [length Nat.eqb].
    cbn [index lookup list_lookup mbind outcome_bind].
    rewrite Sprintf_s_at_s. reflexivity.
  - intros c0 t n1 Hsplit Hc0. rewrite Hsplit. cbn [length Nat.eqb].
    cbn [index lookup list_lookup mbind outcome_bind].
    assert (Hst : starts_non_space (c0 :: t)).
    { unfold name_of in Hsplit.
      destruct (TrimSpace_starts (nth 0 (strings.SplitN pairString (str ";") 2) []))
        as [He|Hst]; [rewrite He in Hsplit; discriminate|].
      exact (SplitN_space_first_token _ _ _ Hst Hsplit). }
    destruct (TrimSpace_head c0 t Hst) as [t' ->].
    destruct (strings_ToLower_head unicode_To_LowerCase c0 t' Hc0) as [l Hlow].
    change (ToLower (c0 :: t'))
      with (strings.ToLower unicode_To_LowerCase (c0 :: t')).
    rewrite Hlow.
    cbn [lookup list_lookup mbind outcome_bind index].
    rewrite Sprintf_c_s_at_s, (fmtC_ascii _ (lowerByte_ascii _ Hc0)).
    cbn [pair_of_email]. rewrite <- !app_assoc. reflexivity.
Qed.

End Lookup.

(** C8, as stated, fails: the prefix is not used. *)
Lemma Prefix_is_not_used : ~ Prefix_is_used.
Proof.
  intros (P & a & initials & prefix & w & H). apply H.
  destruct a as [[f|] cmd]; reflexivity.
Qed.

(** * The legacy key *)

Lemma HasPrefix_spec (k s : gostring) :
  strings.HasPrefix s k = true <-> exists r, s = k ++ r.
Proof.
  revert s. induction k as [|p k IH]; intros s; simpl.
  - split; [eauto|reflexivity].
  - destruct s as [|c s]; [split; [discriminate|intros [r Hr]; discriminate]|].
    destruct (Ascii.eqb_spec p c) as [->|Hpc].
    + rewrite IH. split; intros [r Hr]; exists r; simpl in *; congruence.
    + split; [discriminate|]. intros [r Hr]. simpl in Hr. congruence.
Qed.

Lemma pairsKey_ReplaceAll_from_cons (bol : bool) (c : ascii) (rest repl : gostring) :
  pairsKey_ReplaceAll_from bol (c :: rest) repl
  = if bol && strings.HasPrefix (c :: rest) (str "pairs:")
    then repl ++ pairsKey_ReplaceAll_from false (drop 6 (c :: rest)) repl
    else c :: pairsKey_ReplaceAll_from (is_newline c) rest repl.
Proof.
  cbn [pairsKey_ReplaceAll_from].
  destruct (bol && strings.HasPrefix (c :: rest) (str "pairs:")) eqn:Hm;
    [|reflexivity].
  apply andb_true_iff in Hm as [_ Hm]. apply HasPrefix_spec in Hm as [r Hr].
  cbn in Hr. inversion Hr; subst. reflexivity.
Qed.

Lemma at_bol_cons (bol : bool) (c : ascii) (pre : gostring) :
  at_bol bol (c :: pre) = at_bol (is_newline c) pre.
Proof.
  unfold at_bol. destruct pre as [|c' pre]; [reflexivity|].
  rewrite last_cons_cons.
  destruct (proj2 (last_is_Some (c' :: pre)) ltac:(discriminate)) as [x ->].
  reflexivity.
Qed.

Lemma at_bol_app (bol : bool) (k pre : gostring) :
  at_bol bol (k ++ pre) = at_bol (at_bol bol k) pre.
Proof.
  revert bol. induction k as [|c k IH]; intros bol; [reflexivity|].
  cbn [app]. rewrite !at_bol_cons. apply IH.
Qed.

(** A text in which no line begins with the key is left as it is. *)
Lemma pairsKey_ReplaceAll_from_id (repl d : gostring) :
  forall bol,
    (forall pre post, at_bol bol pre = true -> d <> pre ++ str "pairs:" ++ post) ->
    pairsKey_ReplaceAll_from bol d repl = d.
Proof.
  induction d as [|c rest IH]; intros bol Hno; [reflexivity|].
  rewrite pairsKey_ReplaceAll_from_cons.
  destruct (bol && strings.HasPrefix (c :: rest) (str "pairs:")) eqn:Hm.
  - apply andb_true_iff in Hm as [-> Hm]. apply HasPrefix_spec in Hm as [r Hr].
    exfalso. apply (Hno [] r); [reflexivity|assumption].
  - f_equal. apply IH. intros pre post Hb Hr.
    apply (Hno (c :: pre) post); [rewrite at_bol_cons; assumption|].
    rewrite Hr. reflexivity.
Qed.

(** Before a position where a line begins, the key is looked for within
    what precedes: a match does not run over the end of a line. *)
Lemma HasPrefix_key_before_line_start (bol : bool) (pre q : gostring) :
  pre <> [] -> at_bol bol pre = true ->
  strings.HasPrefix (pre ++ q) (str "pairs:")
  = strings.HasPrefix pre (str "pairs:").
Proof.
  intros Hne Hb.
  destruct (strings.HasPrefix pre (str "pairs:")) eqn:Hp.
  - apply HasPrefix_spec in Hp as [r ->]. apply HasPrefix_spec.
    exists (r ++ q). rewrite app_assoc. reflexivity.
  - destruct (strings.HasPrefix (pre ++ q) _) eqn:Hpq; [|reflexivity].
    exfalso. apply HasPrefix_spec in Hpq as [r Hr].
    destruct (le_lt_dec 6 (length pre)) as [Hlong|Hshort].
    + assert (Ht : take 6 pre = str "pairs:").
      { apply (f_equal (take 6)) in Hr.
        rewrite take_app_le in Hr by assumption. rewrite Hr. reflexivity. }
      assert (Hp' : strings.HasPrefix pre (str "pairs:") = true).
      { apply HasPrefix_spec. exists (drop 6 pre).
        rewrite <- Ht. symmetry. apply take_drop. }
      congruence.
    + assert (Ht : pre = take (length pre) (str "pairs:")).
      { apply (f_equal (take (length pre))) in Hr.
        rewrite take_app_length in Hr. etransitivity; [exact Hr|].
        apply take_app_le. cbn [str list_ascii_of_string length]. lia. }
      rewrite Ht in Hb. clear -Hb Hne Hshort.
      destruct pre as [|? pre]; [congruence|].
      do 5 (destruct pre as [|? pre]; [discriminate Hb|]).
      cbn [length] in Hshort. lia.
Qed.

(** The two spellings of the key, at the beginning of a line, are
    rewritten to the same text. *)
Lemma pairsKey_ReplaceAll_from_key (post : gostring) (n : nat) :
  forall (pre : gostring) (bol : bool),
    (length pre <= n)%nat -> at_bol bol pre = true ->
    pairsKey_ReplaceAll_from bol (pre ++ str "pairs:" ++ post) (str "authors:")
    = pairsKey_ReplaceAll_from bol (pre ++ str "authors:" ++ post) (str "authors:").
Proof.
  induction n as [n IH] using lt_wf_ind. intros pre bol Hn Hb.
  destruct pre as [|c pre'].
  { cbn in Hb. subst bol. reflexivity. }
  cbn [app]. rewrite !pairsKey_ReplaceAll_from_cons.
  change (c :: pre' ++ ?x) with ((c :: pre') ++ x).
  rewrite !(HasPrefix_key_before_line_start bol (c :: pre')) by (assumption || discriminate).
  destruct (bol && strings.HasPrefix (c :: pre') (str "pairs:")) eqn:Hm.
  - apply andb_true_iff in Hm as [-> Hm]. apply HasPrefix_spec in Hm as [r Hr].
    rewrite Hr. rewrite <- !app_assoc.
    change (drop 6 (str "pairs:" ++ ?x)) with x.
    f_equal. apply (IH (length r)).
    + apply (f_equal length) in Hr. rewrite length_app in Hr.
      cbn [length str list_ascii_of_string] in Hr. cbn [length] in Hn. lia.
    + lia.
    + rewrite Hr, at_bol_app in Hb. exact Hb.
  - f_equal. apply (IH (length pre')).
    + cbn [length] in Hn. lia.
    + lia.
    + rewrite at_bol_cons in Hb. exact Hb.
Qed.

Section Loading.
Context `{P : Platform}.

(** C6. A document with the key [pairs:] at the beginning of a line and
    the same document with [authors:] there are rewritten to the same text,
    and the rewriting comes before the YAML parsing, so loading either
    gives the same result; a document in which no line begins with
    [pairs:] is parsed as it is, wherever else [pairs:] occurs in it. *)
Theorem legacy_pairs_key (pre post : gostring) :
  line_start pre ->
  pairsKey_ReplaceAll (pre ++ str "pairs:" ++ post) (str "authors:")
  = pairsKey_ReplaceAll (pre ++ str "authors:" ++ post) (str "authors:") /\
  (forall filename lookup w f contents,
      os_Open filename w = inl f ->
      ioutil_ReadAll f w = inl contents ->
      NewPairsFromFile filename lookup w
      = match yaml_Unmarshal (pairsKey_ReplaceAll contents (str "authors:"))
                (Some empty_pairsFile) with
        | inl af => (Some {| file := af; emailLookup := lookup |}, None)
        | inr err =>
            (None, Some (fmt_error (str "could not parse " ++ filename
                                      ++ str ": " ++ err)))
        end) /\
  (forall filename lookup w w' f f',
      os_Open filename w = inl f ->
      ioutil_ReadAll f w = inl (pre ++ str "pairs:" ++ post) ->
      os_Open filename w' = inl f' ->
      ioutil_ReadAll f' w' = inl (pre ++ str "authors:" ++ post) ->
      NewPairsFromFile filename lookup w = NewPairsFromFile filename lookup w') /\
  (forall d, ~ has_pairs_key d -> pairsKey_ReplaceAll d (str "authors:") = d).
Proof.
  intros Hpre.
  assert (Hrw : pairsKey_ReplaceAll (pre ++ str "pairs:" ++ post) (str "authors:")
                = pairsKey_ReplaceAll (pre ++ str "authors:" ++ post) (str "authors:"))
    by (apply (pairsKey_ReplaceAll_from_key post (length pre)); [lia|exact Hpre]).
  split; [exact Hrw|]. split; [|split].
  - intros filename lookup w f contents Ho Hr. unfold NewPairsFromFile.
    rewrite Ho, Hr. destruct (yaml_Unmarshal _ _) as [af|err]; [reflexivity|].
    unfold fmt.Errorf. cbn. rewrite app_nil_r. reflexivity.
  - intros filename lookup w w' f f' Ho Hr Ho' Hr'. unfold NewPairsFromFile.
    rewrite Ho, Hr, Ho', Hr', Hrw. reflexivity.
  - intros d Hno. apply pairsKey_ReplaceAll_from_id.
    intros pre' post' Hb Hd. apply Hno. exists pre', post'. split; assumption.
Qed.

End Loading.

(** * Where the code and its documentation part *)

Section Divergences.
Context `{P : Platform}.

(** C1, at an authors file whose override for [AB] is the empty string:
    the email returned is empty, the override map being asked only whether
    it has the key, though the name strategy gives a non-empty email for
    the same author, as the same file without the override shows. *)
Theorem empty_override_is_returned (w : World) :
  ByInitials empty_override_pairs (str "AB") w
  = (returns (Some {| Name := str "Alice Brown"; Email := [];
                      Initials := str "AB"; Username := [] |}, None), w) /\
  ByInitials no_override_pairs (str "AB") w
  = (returns (Some {| Name := str "Alice Brown";
                      Email := str "a.brown@example.com";
                      Initials := str "AB"; Username := [] |}, None), w).
Proof.
  split; vm_compute; reflexivity.
Qed.

Lemma Map_loop_ext (f g : Z -> Z) (fuel : nat) :
  (forall r, f r = g r) ->
  forall s, strings.Map_loop f fuel s = strings.Map_loop g fuel s.
Proof.
  intros Hfg. induction fuel as [|fuel IH]; intros s; [reflexivity|].
  cbn [strings.Map_loop]. destruct s as [|c t]; [reflexivity|].
  destruct (utf8.DecodeRuneInString (c :: t)) as [r wd].
  rewrite Hfg, IH. reflexivity.
Qed.

Lemma Emile_lowered (to_lower : Z -> Z) :
  to_lower 0xC9 = 0xE9 ->
  strings.ToLower to_lower (bytes [0xC3; 0x89] ++ str "mile")
  = bytes [0xC3; 0xA9] ++ str "mile".
Proof.
  intros H. unfold strings.ToLower.
  change (forallb _ _) with false. cbv iota. unfold strings.Map.
  rewrite (Map_loop_ext _
             (unicode.ToLower (fun r => if r =? 0xC9 then 0xE9 else to_lower r))).
  - vm_compute. reflexivity.
  - intros r. unfold unicode.ToLower. destruct (r <=? _); [reflexivity|].
    destruct (Z.eqb_spec r 0xC9) as [->|]; [assumption|reflexivity].
Qed.

(** C2, at the author [Emile Zola] written with a capital E acute, the case
    tables mapping it to the small e acute (U+00E9): the lower-cased first
    token starts with that letter, the bytes C3 A9, but the email starts
    with the bytes C3 83, the letter U+00C3: the first byte alone, C3, is
    taken and printed as if it were a code point. *)
Theorem non_ascii_initial_is_mangled (w : World) :
  unicode_To_LowerCase 0xC9 = 0xE9 ->
  ToLower (strings.TrimSpace (bytes [0xC3; 0x89] ++ str "mile"))
  = utf8.EncodeRune 0xE9 ++ str "mile" /\
  ByInitials emile_pairs (str "EZ") w
  = (returns (Some {| Name := Emile_Zola;
                      Email := utf8.EncodeRune 0xC3 ++ str ".zola@example.com";
                      Initials := str "EZ"; Username := [] |}, None), w).
Proof.
  intros H.
  assert (Hlow : ToLower (strings.TrimSpace (bytes [0xC3; 0x89] ++ str "mile"))
                 = bytes [0xC3; 0xA9] ++ str "mile").
  { replace (strings.TrimSpace (bytes [0xC3; 0x89] ++ str "mile"))
      with (bytes [0xC3; 0x89] ++ str "mile") by (vm_compute; reflexivity).
    apply Emile_lowered. exact H. }
  split; [rewrite Hlow; reflexivity|].
  rewrite (ByInitials_present emile_pairs _ (str "EZ") Emile_Zola w eq_refl)
    by (vm_compute; reflexivity).
  replace (name_of Emile_Zola) with Emile_Zola by (vm_compute; reflexivity).
  replace (username_of Emile_Zola) with (@nil ascii) by (vm_compute; reflexivity).
  unfold buildEmail, buildEmail_chain.
  cbn [emile_pairs file emailLookup non_empty].
  rewrite deref_bind. cbv beta.
  cbn [EmailAddresses EmailTemplate pairsFile_Email Domain non_empty].
  rewrite lookup_empty.
  replace (strings.SplitN Emile_Zola (str " ") 2)
    with [bytes [0xC3; 0x89] ++ str "mile"; str "Zola"]
    by (vm_compute; reflexivity).
  cbn [length Nat.eqb index lookup list_lookup mbind outcome_bind].
  rewrite Hlow. vm_compute. reflexivity.
Qed.

(** C3, at an authors file that holds the null document ([null] or [~]),
    after which the parser leaves the nil pointer in [af]:
    [NewPairsFromFile] returns, with no error, the configuration whose file
    is that nil pointer, and [ByInitials] on this loaded configuration
    panics at its first step, whatever the initials; it does not return the
    unknown-initials error, nor any error, though the initials asked for
    are in no authors map. *)
Theorem null_document_lookup_panics (filename lookup contents : gostring)
    (fl : File) (w : World) :
  os_Open filename w = inl fl ->
  ioutil_ReadAll fl w = inl contents ->
  yaml_Unmarshal (pairsKey_ReplaceAll contents (str "authors:"))
    (Some empty_pairsFile) = inl None ->
  NewPairsFromFile filename lookup w = (Some (nil_file_pairs lookup), None) /\
  forall initials w',
    ByInitials (nil_file_pairs lookup) initials w' = (panics, w') /\
    forall e,
      (ByInitials (nil_file_pairs lookup) initials w').1
      <> returns (None, Some e).
Proof.
  intros Ho Hr Hy. split.
  - unfold NewPairsFromFile. rewrite Ho, Hr, Hy. reflexivity.
  - intros initials w'.
    rewrite (ByInitials_nil (nil_file_pairs lookup) initials w' eq_refl).
    split; [reflexivity|discriminate].
Qed.

End Divergences.

(** * The theorems at work on the example platform *)

(** Scenarios 1, 2 and 4 of the specification. *)
Example scenario_two_names :
  (ByInitials (P := demo_platform) demo_pairs (str "AB") 0%nat).1
  = returns (Some {| Name := str "Alice Brown";
                     Email := str "a.brown@example.com";
                     Initials := str "AB"; Username := [] |}, None).
Proof. vm_compute. reflexivity. Qed.

Example scenario_one_name :
  (ByInitials (P := demo_platform) demo_pairs (str "CD") 0%nat).1
  = returns (Some {| Name := str "Cher";
                     Email := str "cher@example.com";
                     Initials := str "CD"; Username := [] |}, None).
Proof. vm_compute. reflexivity. Qed.

Example scenario_override :
  (ByInitials (P := demo_platform) demo_pairs (str "GH") 0%nat).1
  = returns (Some {| Name := str "Grace Hopper";
                     Email := str "grace@navy.mil";
                     Initials := str "GH"; Username := [] |}, None).
Proof. vm_compute. reflexivity. Qed.

(** A key [pairs:] that does not begin a line is not rewritten. *)
Example key_inside_a_line :
  pairsKey_ReplaceAll (str "authors:
  AB: the pairs: key
") (str "authors:")
  = str "authors:
  AB: the pairs: key
".
Proof. vm_compute. reflexivity. Qed.

(** Scenario 6: [ZZ] is not in the authors map. *)
Lemma ByInitials_unknown_initials_iff_witness :
  exists e,
    (ByInitials (P := demo_platform) demo_pairs (str "ZZ") 0%nat).1
    = returns (None, Some e) /\
    UnknownInitials (str "ZZ") e.
Proof.
  apply (proj1 (proj1 (ByInitials_unknown_initials_iff (P := demo_platform)
                         demo_pairs demo_file (str "ZZ") 0%nat eq_refl))).
  vm_compute. reflexivity.
Defined.

(** The command answers: its answer, trimmed, is the email. *)
Lemma external_lookup_contract_witness :
  ByInitials (P := demo_platform) demo_pairs_lookup (str "AB") 0%nat
  = (returns (Some {| Name := str "Alice Brown";
                      Email := str "looked.up@example.org";
                      Initials := str "AB"; Username := [] |}, None), 1%nat).
Proof.
  refine (external_lookup_contract (P := demo_platform) demo_pairs_lookup
            demo_file (str "AB") (str "Alice Brown") 0%nat 1%nat
            (str " looked.up@example.org
") None eq_refl _ _ _).
  - vm_compute. discriminate.
  - vm_compute. reflexivity.
  - vm_compute. reflexivity.
Defined.

(** A template that does not parse: the error and no pair. *)
Lemma lookup_failures_return_no_pair_witness :
  ByInitials (P := demo_platform) bad_template_pairs (str "AB") 0%nat
  = (returns (None, Some (template_error
                            (str "template: email:1: unexpected action"))),
     0%nat).
Proof.
  refine (proj1 (proj1 (proj1 (proj2 (lookup_failures_return_no_pair
            (P := demo_platform) bad_template_pairs (str "AB") 0%nat))
            _ (str "Alice Brown") 0%nat eq_refl _ _ _ _) _ _)).
  - vm_compute. reflexivity.
  - left. split; reflexivity.
  - vm_compute. reflexivity.
  - vm_compute. discriminate.
  - vm_compute. reflexivity.
Defined.

(** Scenario 5: the file with the legacy key loads as the file with the
    key [authors]. *)
Lemma legacy_pairs_key_witness :
  NewPairsFromFile (P := demo_platform) (str ".git-authors") [] 0%nat
  = NewPairsFromFile (P := demo_platform) (str ".git-authors") [] 1%nat.
Proof.
  refine (proj1 (proj2 (proj2 (legacy_pairs_key (P := demo_platform)
            [] demo_yaml_body _))) (str ".git-authors") [] 0%nat 1%nat
            demo_yaml_legacy demo_yaml _ _ _ _); reflexivity.
Defined.

(** Scenario 3: the username wins over the name. *)
Lemma username_strategy_witness :
  ByInitials (P := demo_platform) demo_pairs (str "EF") 0%nat
  = (returns (Some {| Name := str "Eve Foo";
                      Email := str "efoo@example.com";
                      Initials := str "EF"; Username := str "efoo" |}, None),
     0%nat).
Proof.
  refine (proj1 (username_strategy (P := demo_platform) demo_pairs demo_file
                   (str "EF") (str "Eve Foo; efoo") 0%nat 0%nat eq_refl
                   _ _ _ _ _)).
  - vm_compute. reflexivity.
  - left. split; reflexivity.
  - vm_compute. reflexivity.
  - reflexivity.
  - vm_compute. discriminate.
Defined.

(** Two lookups in a row, with the command that always answers the
    same. *)
Lemma ByInitials_idempotent_witness :
  (ByInitials (P := demo_platform) demo_pairs_lookup (str "AB") 0%nat).1
  = (ByInitials (P := demo_platform) demo_pairs_lookup (str "AB") 1%nat).1.
Proof.
  refine (proj1 (ByInitials_idempotent (P := demo_platform) demo_pairs_lookup
                   (str "AB") _ 0%nat)).
  intros name args w1 w2. cbn. destruct (bool_decide _); reflexivity.
Defined.

(** The Latin-1 case table has no negative value: the call of
    [buildEmail] for [AB] does not panic. *)
Lemma buildEmail_index_in_bounds_witness :
  (buildEmail (P := demo_platform) demo_pairs (str "AB")
     (name_of (str "Alice Brown")) (username_of (str "Alice Brown")) 0%nat).1
  <> panics.
Proof.
  refine (proj1 (proj2 (proj2 (buildEmail_index_in_bounds (P := demo_platform)
                                 demo_pairs (str "AB") 0%nat _)))
            demo_file (str "Alice Brown") eq_refl _).
  - intros r Hr. cbn. unfold latin1_lower. destruct (_ || _); lia.
  - vm_compute. reflexivity.
Defined.

Lemma email_config_use_witness :
  ByInitials (P := demo_platform) (with_Prefix (str "pair") demo_pairs)
    (str "AB") 0%nat
  = ByInitials (P := demo_platform) demo_pairs (str "AB") 0%nat.
Proof.
  exact (proj1 (email_config_use (P := demo_platform) demo_pairs (str "AB")
                  0%nat) (str "pair")).
Defined.

Lemma non_ascii_initial_is_mangled_witness :
  ByInitials (P := demo_platform) emile_pairs (str "EZ") 0%nat
  = (returns (Some {| Name := Emile_Zola;
                      Email := utf8.EncodeRune 0xC3 ++ str ".zola@example.com";
                      Initials := str "EZ"; Username := [] |}, None), 0%nat).
Proof.
  exact (proj2 (non_ascii_initial_is_mangled (P := demo_platform) 0%nat eq_refl)).
Defined.

(** The file [null.yml] holds the null document. *)
Lemma null_document_lookup_panics_witness :
  NewPairsFromFile (P := demo_platform) (str "null.yml") [] 0%nat
  = (Some (nil_file_pairs []), None) /\
  forall initials w',
    ByInitials (P := demo_platform) (nil_file_pairs []) initials w'
    = (panics, w') /\
    forall e,
      (ByInitials (P := demo_platform) (nil_file_pairs []) initials w').1
      <> returns (None, Some e).
Proof.
  refine (null_document_lookup_panics (P := demo_platform) (str "null.yml") []
            (str "null") (str "null") 0%nat _ _ _); vm_compute; reflexivity.
Defined.

(** * More about the loader *)

Lemma no_newline_cons (c : ascii) (k : gostring) :
  no_newline (c :: k) -> is_newline c = false /\ no_newline k.
Proof.
  unfold no_newline. cbn [forallb]. intros H.
  apply andb_true_iff in H as [Hc Hk]. split; [|assumption].
  destruct (is_newline c); [discriminate|reflexivity].
Qed.

(** A text that ends in a newline and agrees with a text [k] without
    newline at the front has all of [k] at its front. *)
Lemma line_end_after_prefix (k : gostring) :
  forall (bol : bool) (pre x y : gostring),
    no_newline k -> pre <> [] -> at_bol bol pre = true ->
    k ++ x = pre ++ y ->
    exists pre', pre = k ++ pre'.
Proof.
  induction k as [|c k IH]; intros bol pre x y Hk Hne Hb Heq; [eauto|].
  destruct pre as [|c' pre]; [congruence|].
  cbn [app] in Heq. inversion Heq; subst c'.
  apply no_newline_cons in Hk as [Hc Hk].
  rewrite at_bol_cons in Hb.
  destruct pre as [|c2 pre]; [cbn in Hb; congruence|].
  destruct (IH (is_newline c) (c2 :: pre) x y Hk ltac:(discriminate) Hb H1)
    as [pre' ->].
  exists pre'. reflexivity.
Qed.

(** Away from the beginning of a line, the rewriting copies up to the next
    newline: a text without newline is at the front of the result exactly
    when it is at the front of the source. *)
Lemma HasPrefix_rewritten (repl k : gostring) :
  forall src,
    no_newline k ->
    strings.HasPrefix (pairsKey_ReplaceAll_from false src repl) k
    = strings.HasPrefix src k.
Proof.
  induction k as [|x k IH]; intros src Hk; [reflexivity|].
  apply no_newline_cons in Hk as [Hx Hk].
  destruct src as [|c src]; [reflexivity|].
  rewrite pairsKey_ReplaceAll_from_cons. cbn [andb strings.HasPrefix].
  destruct (Ascii.eqb_spec x c) as [<-|]; [|reflexivity].
  rewrite Hx. apply IH. assumption.
Qed.

(** The rewriting goes line by line. *)
Lemma pairsKey_ReplaceAll_from_app (rest repl : gostring) (n : nat) :
  forall (pre : gostring) (bol : bool),
    (length pre <= n)%nat -> at_bol bol pre = true ->
    pairsKey_ReplaceAll_from bol (pre ++ rest) repl
    = pairsKey_ReplaceAll_from bol pre repl
      ++ pairsKey_ReplaceAll_from true rest repl.
Proof.
  induction n as [n IH] using lt_wf_ind. intros pre bol Hn Hb.
  destruct pre as [|c pre'].
  { cbn in Hb. subst bol. reflexivity. }
  cbn [app]. rewrite !pairsKey_ReplaceAll_from_cons.
  change (c :: pre' ++ rest) with ((c :: pre') ++ rest).
  rewrite (HasPrefix_key_before_line_start bol (c :: pre'))
    by (assumption || discriminate).
  destruct (bol && strings.HasPrefix (c :: pre') (str "pairs:")) eqn:Hm.
  - apply andb_true_iff in Hm as [-> Hm]. apply HasPrefix_spec in Hm as [r Hr].
    rewrite Hr. rewrite <- !app_assoc.
    change (drop 6 (str "pairs:" ++ ?x)) with x.
    f_equal. apply (IH (length r)).
    + apply (f_equal length) in Hr. rewrite length_app in Hr.
      cbn [length str list_ascii_of_string] in Hr. cbn [length] in Hn. lia.
    + lia.
    + rewrite Hr, at_bol_app in Hb. exact Hb.
  - cbn [app]. f_equal. apply (IH (length pre')).
    + cbn [length] in Hn. lia.
    + lia.
    + rewrite at_bol_cons in Hb. exact Hb.
Qed.

(** In the rewritten text no line begins with the key. *)
Lemma pairsKey_ReplaceAll_from_no_key (n : nat) :
  forall (d : gostring) (bol : bool) (pre post : gostring),
    (length d <= n)%nat -> at_bol bol pre = true ->
    pairsKey_ReplaceAll_from bol d (str "authors:")
    <> pre ++ str "pairs:" ++ post.
Proof.
  induction n as [n IH] using lt_wf_ind. intros d bol pre post Hn Hb Ho.
  destruct d as [|c rest].
  { destruct pre; discriminate Ho. }
  rewrite pairsKey_ReplaceAll_from_cons in Ho.
  destruct (bol && strings.HasPrefix (c :: rest) (str "pairs:")) eqn:Hm.
  - apply andb_true_iff in Hm as [-> Hm]. apply HasPrefix_spec in Hm as [r Hr].
    rewrite Hr in Ho. change (drop 6 (str "pairs:" ++ r)) with r in Ho.
    destruct pre as [|c' pre']; [discriminate Ho|].
    destruct (line_end_after_prefix (str "authors:") true (c' :: pre') _ _
                eq_refl ltac:(discriminate) Hb Ho) as [pre2 Hpre].
    rewrite Hpre, <- app_assoc in Ho. apply app_inv_head in Ho.
    rewrite Hpre, at_bol_app in Hb.
    apply (IH (length r)) with (d := r) (bol := false) (pre := pre2) (post := post);
      [|lia|exact Hb|exact Ho].
    apply (f_equal length) in Hr. rewrite length_app in Hr.
    cbn [length str list_ascii_of_string] in Hr, Hn. lia.
  - destruct pre as [|c' pre'].
    + cbn in Hb. subst bol. cbn [andb] in Hm.
      cbn [app str list_ascii_of_string] in Ho. inversion Ho as [[Hc Hrest]].
      subst c.
      assert (Hp : strings.HasPrefix
                     (pairsKey_ReplaceAll_from false rest (str "authors:"))
                     (str "airs:") = true)
        by (apply HasPrefix_spec; exists post; exact Hrest).
      rewrite HasPrefix_rewritten in Hp by reflexivity.
      change (strings.HasPrefix rest (str "airs:") = false) in Hm.
      congruence.
    + cbn [app] in Ho. inversion Ho as [[Hc Hrest]]. subst c'.
      rewrite at_bol_cons in Hb.
      apply (IH (length rest)) with (d := rest) (bol := is_newline c)
                                    (pre := pre') (post := post);
        [cbn [length] in Hn; lia|lia|exact Hb|exact Hrest].
Qed.

Section Loader.
Context `{P : Platform}.

(** X1. [NewPairsFromFile] fails exactly when opening, reading or parsing
    fails.  An error of opening or of reading the file is returned as it
    is, and nothing is parsed; an error of parsing is returned as the
    message [could not parse], the file name, a colon and the parser's
    message; otherwise the configuration returned is the pointer the parser
    has left, with the lookup command given.  So it returns a
    configuration or an error, never both and never neither. *)
Theorem NewPairsFromFile_result (filename lookup : gostring) (w : World) :
  (forall msg,
      os_Open filename w = inr msg ->
      NewPairsFromFile filename lookup w = (None, Some (os_error msg))) /\
  (forall fl msg,
      os_Open filename w = inl fl ->
      ioutil_ReadAll fl w = inr msg ->
      NewPairsFromFile filename lookup w = (None, Some (os_error msg))) /\
  (forall fl contents msg,
      os_Open filename w = inl fl ->
      ioutil_ReadAll fl w = inl contents ->
      yaml_Unmarshal (pairsKey_ReplaceAll contents (str "authors:"))
        (Some empty_pairsFile) = inr msg ->
      NewPairsFromFile filename lookup w
      = (None, Some (fmt_error (str "could not parse " ++ filename
                                  ++ str ": " ++ msg)))) /\
  (forall fl contents af,
      os_Open filename w = inl fl ->
      ioutil_ReadAll fl w = inl contents ->
      yaml_Unmarshal (pairsKey_ReplaceAll contents (str "authors:"))
        (Some empty_pairsFile) = inl af ->
      NewPairsFromFile filename lookup w
      = (Some {| file := af; emailLookup := lookup |}, None)) /\
  ((exists a, NewPairsFromFile filename lookup w = (Some a, None)) \/
   (exists e, NewPairsFromFile filename lookup w = (None, Some e))).
Proof.
  unfold NewPairsFromFile. repeat split.
  - intros msg Ho. rewrite Ho. reflexivity.
  - intros fl msg Ho Hr. rewrite Ho, Hr. reflexivity.
  - intros fl contents msg Ho Hr Hy. rewrite Ho, Hr, Hy.
    unfold fmt.Errorf. cbn. rewrite app_nil_r. reflexivity.
  - intros fl contents af Ho Hr Hy. rewrite Ho, Hr, Hy. reflexivity.
  - destruct (os_Open filename w) as [fl|msg]; [|right; eauto].
    destruct (ioutil_ReadAll fl w) as [contents|msg]; [|right; eauto].
    destruct (yaml_Unmarshal _ _) as [af|msg]; [left|right]; eauto.
Qed.

End Loader.

(** X2. In the text that [NewPairsFromFile] hands to the YAML parser no
    line begins with [pairs:], whatever the file holds; so rewriting a
    rewritten text changes nothing. *)
Theorem rewritten_text_has_no_legacy_key (d : gostring) :
  ~ has_pairs_key (pairsKey_ReplaceAll d (str "authors:")) /\
  pairsKey_ReplaceAll (pairsKey_ReplaceAll d (str "authors:")) (str "authors:")
  = pairsKey_ReplaceAll d (str "authors:").
Proof.
  assert (Hno : ~ has_pairs_key (pairsKey_ReplaceAll d (str "authors:"))).
  { intros (pre & post & Hpre & Ho).
    exact (pairsKey_ReplaceAll_from_no_key (length d) d true pre post
             ltac:(lia) Hpre Ho). }
  split; [exact Hno|].
  apply pairsKey_ReplaceAll_from_id.
  intros pre post Hb Ho. apply Hno. exists pre, post. split; assumption.
Qed.

(** X3. The rewriting goes line by line: a text cut where a line begins is
    rewritten piece by piece; and every key at the beginning of a line is
    replaced, not only the first. *)
Theorem rewriting_goes_line_by_line (pre rest repl : gostring) :
  line_start pre ->
  pairsKey_ReplaceAll (pre ++ rest) repl
  = pairsKey_ReplaceAll pre repl ++ pairsKey_ReplaceAll rest repl /\
  pairsKey_ReplaceAll (pre ++ str "pairs:" ++ rest) repl
  = pairsKey_ReplaceAll pre repl ++ repl
    ++ pairsKey_ReplaceAll_from false rest repl.
Proof.
  intros Hpre.
  assert (Happ : forall x, pairsKey_ReplaceAll (pre ++ x) repl
                           = pairsKey_ReplaceAll pre repl
                             ++ pairsKey_ReplaceAll x repl)
    by (intros x; apply (pairsKey_ReplaceAll_from_app x repl (length pre));
        [lia|exact Hpre]).
  split; [apply Happ|].
  rewrite Happ. f_equal.
Qed.

Lemma rewriting_goes_line_by_line_witness :
  pairsKey_ReplaceAll (str "# team
" ++ str "pairs:" ++ str " {AB: Al}") (str "authors:")
  = str "# team
authors: {AB: Al}".
Proof.
  refine (eq_trans (proj2 (rewriting_goes_line_by_line (str "# team
") (str " {AB: Al}") (str "authors:") _)) _); reflexivity.
Defined.

(** * More about the lookup *)

(** Trimming keeps bytes of the string, in place. *)
Lemma TrimSpace_subseteq (s : gostring) : strings.TrimSpace s ⊆ s.
Proof.
  unfold strings.TrimSpace, strings.TrimFunc.
  destruct (TrimRightFunc_is_take (strings.TrimLeftFunc s unicode.IsSpace))
    as [n ->].
  etransitivity; [apply subseteq_take|].
  unfold strings.TrimLeftFunc. destruct (strings.indexFunc _ _ _).
  - apply subseteq_drop.
  - intros x Hx. inversion Hx.
Qed.

(** [strings.Index] for a separator of one byte. *)
Lemma Index_byte (c : ascii) (s : gostring) :
  match strings.Index s [c] with
  | None => c ∉ s
  | Some m => (c ∉ take m s) /\ (s !! m = Some c)
  end.
Proof.
  induction s as [|x s IH]; cbn [strings.Index strings.HasPrefix].
  - intros H. inversion H.
  - destruct (Ascii.eqb_spec c x) as [->|Hcx].
    + split; [intros H; inversion H|reflexivity].
    + destruct (strings.Index s [c]) as [m|]; cbn [option_map].
      * destruct IH as [Hn Hm]. split; [|exact Hm].
        cbn [take]. apply not_elem_of_cons. split; assumption.
      * apply not_elem_of_cons. split; assumption.
Qed.

Lemma Index_byte_app (c : ascii) (pre post : gostring) :
  c ∉ pre -> strings.Index (pre ++ c :: post) [c] = Some (length pre).
Proof.
  induction pre as [|x pre IH]; intros Hc; cbn [app strings.Index strings.HasPrefix].
  - rewrite Ascii.eqb_refl. reflexivity.
  - apply not_elem_of_cons in Hc as [Hcx Hc].
    destruct (Ascii.eqb_spec c x) as [->|_]; [congruence|].
    rewrite (IH Hc). reflexivity.
Qed.

Lemma SplitN_byte_absent (c : ascii) (s : gostring) :
  c ∉ s -> strings.SplitN s [c] 2 = [s].
Proof.
  intros Hc. destruct (SplitN_2_cases s [c]) as [He|(m & Hm & _)]; [exact He|].
  pose proof (Index_byte c s) as Hi. rewrite Hm in Hi. destruct Hi as [_ Hi].
  exfalso. apply Hc. eapply list_elem_of_lookup_2. eassumption.
Qed.

Lemma SplitN_byte_first (c : ascii) (pre post : gostring) :
  c ∉ pre -> strings.SplitN (pre ++ c :: post) [c] 2 = [pre; post].
Proof.
  intros Hc. destruct (SplitN_2_cases (pre ++ c :: post) [c])
    as [He|(m & Hm & ->)].
  - exfalso. unfold strings.SplitN in He.
    assert (Hlen : (Nat.min 2 (length (pre ++ c :: post) + 1) - 1 = 1)%nat)
      by (rewrite length_app; cbn [length]; lia).
    rewrite Hlen in He. cbn [strings.genSplit_loop] in He.
    rewrite (Index_byte_app c pre post Hc) in He. discriminate.
  - rewrite (Index_byte_app c pre post Hc) in Hm. inversion Hm; subst m.
    rewrite take_app_length. cbn [length].
    f_equal. f_equal.
    change (c :: post) with ([c] ++ post). rewrite app_assoc.
    apply drop_app_length'. rewrite length_app. cbn [length]. lia.
Qed.

(** The first part of an entry has no semicolon. *)
Lemma name_of_no_separator (pairString : gostring) :
  ";"%char ∉ (name_of pairString).
Proof.
  unfold name_of. intros Hin. apply TrimSpace_subseteq in Hin. revert Hin.
  destruct (SplitN_2_cases pairString (str ";")) as [He|(m & Hm & He)];
    rewrite He; cbn [nth].
  - unfold strings.SplitN in He. destruct pairString as [|x t].
    { intros H. inversion H. }
    assert (Hlen : (Nat.min 2 (length (x :: t) + 1) - 1 = 1)%nat)
      by (cbn [length]; lia).
    rewrite Hlen in He. cbn [strings.genSplit_loop] in He.
    pose proof (Index_byte ";" (x :: t)) as Hi.
    change (str ";") with [";"%char] in He.
    destruct (strings.Index (x :: t) [";"%char]); [discriminate|exact Hi].
  - pose proof (Index_byte ";" pairString) as Hi.
    change (str ";") with [";"%char] in Hm. rewrite Hm in Hi. apply Hi.
Qed.

Section MoreLookup.
Context `{P : Platform}.

(** The fields of a pair that [ByInitials] returns. *)
Lemma ByInitials_pair_fields (a : Pairs) (f : pairsFile)
    (initials pairString : gostring)
    (w w' : World) (pair : Pair) (e : option error) :
  file a = Some f ->
  pairsFile_Pairs f !! initials = Some pairString ->
  ByInitials a initials w = (returns (Some pair, e), w') ->
  e = None /\ Initials pair = initials /\
  Name pair = name_of pairString /\ Username pair = username_of pairString.
Proof.
  intros Hf Hl H. rewrite (ByInitials_present _ _ _ _ _ Hf Hl) in H. cbn in H.
  destruct (buildEmail _ _ _ _ _) as [[[email [err|]]|] w1]; cbn in H;
    inversion H; subst. auto.
Qed.

(** X4. When the external lookup gives no answer, an entry of the override
    map for the initials is the email as it stands, not trimmed, whatever
    the template, the username, the name and the domain are. *)
Theorem override_is_the_email (a : Pairs) (f : pairsFile)
    (initials pairString e : gostring) (w w' : World) :
  file a = Some f ->
  pairsFile_Pairs f !! initials = Some pairString ->
  no_lookup_answer a initials (name_of pairString) (username_of pairString)
    w w' ->
  EmailAddresses f !! initials = Some e ->
  ByInitials a initials w
  = (returns (Some {| Name := name_of pairString; Email := e;
                      Initials := initials;
                      Username := username_of pairString |}, None), w').
Proof.
  intros Hf Hl Hno He.
  rewrite (ByInitials_present _ _ _ _ _ Hf Hl),
    (buildEmail_no_answer _ _ _ _ _ _ Hno).
  cbn [fst snd]. rewrite (override_wins _ _ _ _ _ _ Hf He). reflexivity.
Qed.

(** X5. When the external lookup gives no answer and the override map has
    no entry for the initials, a configured template that parses and
    executes gives the email: what it writes, as it stands, when run on
    the initials, the name and the username (with no email); the username
    and the domain play no other part. *)
Theorem template_output_is_the_email (a : Pairs) (f : pairsFile)
    (initials pairString out : gostring) (t : Template) (w w' : World) :
  file a = Some f ->
  pairsFile_Pairs f !! initials = Some pairString ->
  no_lookup_answer a initials (name_of pairString) (username_of pairString)
    w w' ->
  EmailAddresses f !! initials = None ->
  EmailTemplate f <> [] ->
  template_Parse (EmailTemplate f) = inl t ->
  template_Execute t {| Initials := initials; Name := name_of pairString;
                        Username := username_of pairString; Email := [] |}
  = inl out ->
  ByInitials a initials w
  = (returns (Some {| Name := name_of pairString; Email := out;
                      Initials := initials;
                      Username := username_of pairString |}, None), w').
Proof.
  intros Hf Hl Hno Hov Htmpl Hp He.
  rewrite (ByInitials_present _ _ _ _ _ Hf Hl),
    (buildEmail_no_answer _ _ _ _ _ _ Hno).
  cbn [fst snd]. rewrite (template_decides _ _ _ _ _ _ _ Hf Hov Htmpl Hp He).
  reflexivity.
Qed.

(** X7. Whatever [ByInitials] returns is a pair or an error, never both
    and never neither.  A pair returned has the initials asked for; its
    name and its username are trimmed (trimming them again changes
    nothing), and its name has no semicolon. *)
Theorem returned_pair_is_well_formed (a : Pairs) (initials : gostring)
    (w w' : World) (p : option Pair) (e : option error) :
  ByInitials a initials w = (returns (p, e), w') ->
  (is_Some p <-> e = None) /\
  forall pair, p = Some pair ->
    Initials pair = initials /\
    strings.TrimSpace (Name pair) = Name pair /\
    strings.TrimSpace (Username pair) = Username pair /\
    ";"%char ∉ Name pair.
Proof.
  intros H.
  destruct (file a) as [f|] eqn:Hf;
    [|rewrite (ByInitials_nil _ _ _ Hf) in H; discriminate].
  destruct (pairsFile_Pairs f !! initials) as [pairString|] eqn:Hl.
  - split.
    + rewrite (ByInitials_present _ _ _ _ _ Hf Hl) in H. cbn in H.
      destruct (buildEmail _ _ _ _ _) as [[[email [err|]]|] w1]; cbn in H;
        inversion H; subst; split; intros Hx;
        try (inversion Hx; discriminate); eauto.
    + intros pair ->.
      destruct (ByInitials_pair_fields _ _ _ _ _ _ _ _ Hf Hl H)
        as (_ & Hi & Hn & Hu).
      rewrite Hn, Hu. split; [assumption|]. split; [|split].
      * unfold name_of. apply TrimSpace_idempotent.
      * apply username_of_trimmed.
      * apply name_of_no_separator.
  - rewrite (ByInitials_absent _ _ _ _ Hf Hl) in H. inversion H; subst. split.
    + split; intros Hx; [inversion Hx|]; discriminate.
    + intros pair Hp. discriminate.
Qed.

(** X8. The entry of the authors map is cut at its first semicolon: what
    is before it, trimmed, is the name of the pair, and all that is after
    it, further semicolons included, trimmed, is the username; an entry
    without semicolon is the name, trimmed, and the username is empty. *)
Theorem entry_is_cut_at_first_semicolon (a : Pairs) (f : pairsFile)
    (initials pairString : gostring) (w w' : World) (pair : Pair)
    (e : option error) :
  file a = Some f ->
  pairsFile_Pairs f !! initials = Some pairString ->
  ByInitials a initials w = (returns (Some pair, e), w') ->
  (";"%char ∉ pairString ->
   Name pair = strings.TrimSpace pairString /\ Username pair = []) /\
  (forall pre post,
      pairString = pre ++ str ";" ++ post -> ";"%char ∉ pre ->
      Name pair = strings.TrimSpace pre /\
      Username pair = strings.TrimSpace post).
Proof.
  intros Hf Hl H.
  destruct (ByInitials_pair_fields _ _ _ _ _ _ _ _ Hf Hl H)
    as (_ & _ & -> & ->).
  unfold name_of, username_of. change (str ";") with [";"%char]. split.
  - intros Hc. rewrite (SplitN_byte_absent _ _ Hc). split; reflexivity.
  - intros pre post -> Hc. cbn [app].
    rewrite (SplitN_byte_first _ _ _ Hc). split; reflexivity.
Qed.

(** X9. The command is not run for initials that are not in the authors
    map, nor when none is configured, nor when the file of the
    configuration is nil: the world is left as it was.  Otherwise it is
    run once, on the initials, the name and the username, and the world is
    what that run leaves. *)
Theorem command_runs_only_for_known_initials (a : Pairs) (initials : gostring)
    (w : World) :
  (file a = None \/
   (exists f, file a = Some f /\ pairsFile_Pairs f !! initials = None) \/
   emailLookup a = [] ->
   (ByInitials a initials w).2 = w) /\
  (forall f pairString,
      file a = Some f ->
      pairsFile_Pairs f !! initials = Some pairString ->
      emailLookup a <> [] ->
      (ByInitials a initials w).2
      = (exec_Run (emailLookup a)
           [initials; name_of pairString; username_of pairString] w).2).
Proof.
  split.
  - destruct (file a) as [f|] eqn:Hf;
      [|intros _; rewrite (ByInitials_nil _ _ _ Hf); reflexivity].
    destruct (pairsFile_Pairs f !! initials) as [pairString|] eqn:Hl.
    + intros [Hx|[(f' & Hf' & Hx)|Hcmd]]; [discriminate| |].
      { inversion Hf'; subst f'. congruence. }
      rewrite (ByInitials_present _ _ _ _ _ Hf Hl). cbn [snd].
      unfold buildEmail. rewrite Hcmd. reflexivity.
    + intros _. rewrite (ByInitials_absent _ _ _ _ Hf Hl). reflexivity.
  - intros f pairString Hf Hl Hcmd.
    rewrite (ByInitials_present _ _ _ _ _ Hf Hl). cbn [snd]. unfold buildEmail.
    destruct (emailLookup a); [congruence|]. cbn [non_empty].
    destruct (exec_Run _ _ _) as [[out [msg|]] w1]; [reflexivity|].
    destruct (non_empty _); reflexivity.
Qed.

(** X10. An entry whose name is empty once trimmed is not refused: with no
    username, no answer of the lookup, no override and no template, the
    pair returned has the empty name, and its email is [@] followed by the
    domain. *)
Theorem empty_name_is_accepted (a : Pairs) (f : pairsFile)
    (initials pairString : gostring) (w w' : World) :
  file a = Some f ->
  pairsFile_Pairs f !! initials = Some pairString ->
  name_of pairString = [] ->
  username_of pairString = [] ->
  no_lookup_answer a initials [] [] w w' ->
  EmailAddresses f !! initials = None ->
  EmailTemplate f = [] ->
  ByInitials a initials w
  = (returns (Some {| Name := [];
                      Email := str "@" ++ Domain (pairsFile_Email f);
                      Initials := initials; Username := [] |}, None), w').
Proof.
  intros Hf Hl Hn Hu Hno Hov Htmpl.
  rewrite (ByInitials_present _ _ _ _ _ Hf Hl), Hn, Hu.
  rewrite (buildEmail_no_answer _ _ _ _ _ _ Hno).
  cbn [fst snd]. unfold buildEmail_chain. rewrite Hf, deref_bind. cbv beta. rewrite Hov, Htmpl.
  cbn [non_empty]. vm_compute strings.SplitN.
  cbn [length Nat.eqb index lookup list_lookup mbind outcome_bind].
  replace (strings.TrimSpace []) with (@nil ascii) by (vm_compute; reflexivity).
  rewrite Sprintf_s_at_s. reflexivity.
Qed.

Lemma buildEmail_with_address (a : Pairs) (k v initials name username : gostring)
    (w : World) :
  k <> initials ->
  buildEmail (with_address k v a) initials name username w
  = buildEmail a initials name username w.
Proof.
  intros Hk. destruct a as [[f|] cmd]; [|reflexivity].
  unfold buildEmail, buildEmail_chain.
  cbn [with_address file fmap option_fmap option_map emailLookup].
  rewrite !deref_bind. cbv beta.
  cbn [EmailAddresses EmailTemplate pairsFile_Email].
  rewrite (lookup_insert_ne _ _ _ _ Hk). reflexivity.
Qed.

(** X11. A lookup depends on the entries of its own initials only: putting
    or changing the entry of other initials, in the authors map or in the
    override map, changes nothing to it. *)
Theorem other_entries_do_not_matter (a : Pairs) (k v initials : gostring)
    (w : World) :
  k <> initials ->
  ByInitials (with_author k v a) initials w = ByInitials a initials w /\
  ByInitials (with_address k v a) initials w = ByInitials a initials w.
Proof.
  intros Hk. destruct a as [[f|] cmd]; [|split; reflexivity]. split.
  - unfold ByInitials.
    cbn [with_author file fmap option_fmap option_map deref pairsFile_Pairs].
    rewrite (lookup_insert_ne _ _ _ _ Hk). reflexivity.
  - unfold ByInitials.
    cbn [with_address file fmap option_fmap option_map deref pairsFile_Pairs].
    destruct (pairsFile_Pairs f !! initials) as [pairString|]; [|reflexivity].
    destruct (index _ 0) as [p0|]; [|reflexivity].
    match goal with
    | |- context [match ?x with returns _ => _ | panics => _ end] =>
        destruct x as [username|]; [|reflexivity]
    end.
    rewrite <- (buildEmail_with_address {| file := Some f; emailLookup := cmd |}
                  k v _ _ _ w Hk).
    reflexivity.
Qed.

(** X12. [buildEmail] relies on its caller for the trimming: handed a name
    that begins with a space, with no username, it panics in the name
    strategy, the first token being empty and the byte index [0] out of
    range. *)
Theorem buildEmail_needs_a_trimmed_name (a : Pairs) (f : pairsFile)
    (initials rest : gostring) (w w' : World) :
  file a = Some f ->
  no_lookup_answer a initials (" "%char :: rest) [] w w' ->
  EmailAddresses f !! initials = None ->
  EmailTemplate f = [] ->
  buildEmail a initials (" "%char :: rest) [] w = (panics, w').
Proof.
  intros Hf Hno Hov Htmpl.
  rewrite (buildEmail_no_answer _ _ _ _ _ _ Hno).
  unfold buildEmail_chain. rewrite Hf, deref_bind. cbv beta. rewrite Hov, Htmpl. cbn [non_empty].
  assert (Hsplit : strings.SplitN (" "%char :: rest) (str " ") 2 = [[]; rest]).
  { unfold strings.SplitN.
    replace (Nat.min 2 (length (" "%char :: rest) + 1) - 1)%nat with 1%nat
      by (cbn [length]; lia).
    reflexivity. }
  rewrite Hsplit.
  cbn [length Nat.eqb index lookup list_lookup mbind outcome_bind].
  replace (strings.TrimSpace []) with (@nil ascii) by (vm_compute; reflexivity).
  reflexivity.
Qed.

End MoreLookup.

(** * The further theorems at work on the example platform *)

Ltac no_such_byte :=
  repeat (apply not_elem_of_cons; split; [discriminate|]); apply not_elem_of_nil.

(** Scenario 4: the override is the email. *)
Lemma override_is_the_email_witness :
  ByInitials (P := demo_platform) demo_pairs (str "GH") 0%nat
  = (returns (Some {| Name := str "Grace Hopper";
                      Email := str "grace@navy.mil";
                      Initials := str "GH"; Username := [] |}, None), 0%nat).
Proof.
  refine (override_is_the_email (P := demo_platform) demo_pairs _ (str "GH")
            (str "Grace Hopper") (str "grace@navy.mil") 0%nat 0%nat eq_refl
            _ _ _).
  - vm_compute. reflexivity.
  - left. split; reflexivity.
  - vm_compute. reflexivity.
Defined.

Lemma template_output_is_the_email_witness :
  ByInitials (P := demo_platform) literal_template_pairs (str "EF") 0%nat
  = (returns (Some {| Name := str "Eve Foo";
                      Email := str "pairs@example.com";
                      Initials := str "EF"; Username := str "efoo" |}, None),
     0%nat).
Proof.
  refine (template_output_is_the_email (P := demo_platform)
            literal_template_pairs _ (str "EF") (str "Eve Foo; efoo")
            (str "pairs@example.com") (str "pairs@example.com")
            0%nat 0%nat eq_refl _ _ _ _ _ _).
  - vm_compute. reflexivity.
  - left. split; reflexivity.
  - vm_compute. reflexivity.
  - vm_compute. discriminate.
  - vm_compute. reflexivity.
  - vm_compute. reflexivity.
Defined.

(** Scenario 1, by the name strategy. *)
Lemma name_strategy_ascii_initial_witness :
  ByInitials (P := demo_platform) demo_pairs (str "AB") 0%nat
  = (returns (Some {| Name := str "Alice Brown";
                      Email := str "a.brown@example.com";
                      Initials := str "AB"; Username := [] |}, None), 0%nat).
Proof.
  refine (proj2 (name_strategy_ascii_initial (P := demo_platform) demo_pairs
                   _ (str "AB") (str "Alice Brown") 0%nat 0%nat eq_refl
                   _ _ _ _ _)
            "A"%char (str "lice") (str "Brown") _ _).
  - vm_compute. reflexivity.
  - left. split; reflexivity.
  - vm_compute. reflexivity.
  - reflexivity.
  - vm_compute. reflexivity.
  - vm_compute. reflexivity.
  - vm_compute. reflexivity.
Defined.

Lemma returned_pair_is_well_formed_witness :
  Initials {| Name := str "Eve Foo"; Email := str "efoo@example.com";
              Initials := str "EF"; Username := str "efoo" |} = str "EF" /\
  strings.TrimSpace (str "Eve Foo") = str "Eve Foo" /\
  strings.TrimSpace (str "efoo") = str "efoo" /\
  ";"%char ∉ str "Eve Foo".
Proof.
  refine (proj2 (returned_pair_is_well_formed (P := demo_platform) demo_pairs
                   (str "EF") 0%nat 0%nat
                   (Some {| Name := str "Eve Foo";
                            Email := str "efoo@example.com";
                            Initials := str "EF"; Username := str "efoo" |})
                   None _) _ eq_refl).
  vm_compute. reflexivity.
Defined.

Lemma entry_is_cut_at_first_semicolon_witness :
  Name {| Name := str "Eve Foo"; Email := str "efoo@example.com";
          Initials := str "EF"; Username := str "efoo" |}
  = strings.TrimSpace (str "Eve Foo") /\
  Username {| Name := str "Eve Foo"; Email := str "efoo@example.com";
              Initials := str "EF"; Username := str "efoo" |}
  = strings.TrimSpace (str " efoo").
Proof.
  refine (proj2 (entry_is_cut_at_first_semicolon (P := demo_platform)
                   demo_pairs _ (str "EF") (str "Eve Foo; efoo") 0%nat 0%nat
                   {| Name := str "Eve Foo"; Email := str "efoo@example.com";
                      Initials := str "EF"; Username := str "efoo" |}
                   None eq_refl _ _)
            (str "Eve Foo") (str " efoo") eq_refl _).
  - vm_compute. reflexivity.
  - vm_compute. reflexivity.
  - cbn. no_such_byte.
Defined.

(** Unknown initials: the configured command is not run. *)
Lemma command_runs_only_for_known_initials_witness :
  (ByInitials (P := demo_platform) demo_pairs_lookup (str "ZZ") 0%nat).2 = 0%nat.
Proof.
  refine (proj1 (command_runs_only_for_known_initials (P := demo_platform)
                   demo_pairs_lookup (str "ZZ") 0%nat) _).
  right. left. eexists. split; [reflexivity|]. vm_compute. reflexivity.
Defined.

Lemma empty_name_is_accepted_witness :
  ByInitials (P := demo_platform) blank_pairs (str "XX") 0%nat
  = (returns (Some {| Name := []; Email := str "@example.com";
                      Initials := str "XX"; Username := [] |}, None), 0%nat).
Proof.
  refine (empty_name_is_accepted (P := demo_platform) blank_pairs _ (str "XX")
            (str "  ") 0%nat 0%nat eq_refl _ _ _ _ _ _).
  - vm_compute. reflexivity.
  - vm_compute. reflexivity.
  - vm_compute. reflexivity.
  - left. split; reflexivity.
  - vm_compute. reflexivity.
  - reflexivity.
Defined.

Lemma other_entries_do_not_matter_witness :
  ByInitials (P := demo_platform)
    (with_author (str "ZZ") (str "Zed Zulu") demo_pairs) (str "AB") 0%nat
  = ByInitials (P := demo_platform) demo_pairs (str "AB") 0%nat.
Proof.
  refine (proj1 (other_entries_do_not_matter (P := demo_platform) demo_pairs
                   (str "ZZ") (str "Zed Zulu") (str "AB") 0%nat _)).
  vm_compute. discriminate.
Defined.

Lemma buildEmail_needs_a_trimmed_name_witness :
  buildEmail (P := demo_platform) demo_pairs (str "AB") (str " Bob") [] 0%nat
  = (panics, 0%nat).
Proof.
  refine (buildEmail_needs_a_trimmed_name (P := demo_platform) demo_pairs _
            (str "AB") (str "Bob") 0%nat 0%nat eq_refl _ _ _).
  - left. split; reflexivity.
  - vm_compute. reflexivity.
  - reflexivity.
Defined.
